(** * Valkompass: the session controller, embedded and verified

    A shallow embedding of the session controller of the Valkompass
    questionnaire (React/TypeScript): [types.ts], the retry policy of
    [services/geminiService.ts], the answer capture of
    [components/Quiz.tsx] and the orchestrator [App.tsx].

    Conventions of the embedding:
    - a JS [number] that holds an identifier, an answer value or a
      timestamp in milliseconds is a [Z]; an array index is a [nat];
    - a JS string is the [string] of the bytes of its UTF-8 encoding;
      [undefined] / [null] is [None];
    - React state is a record; an event handler is a function from the
      state of the render it closes over to the next state, followed by
      the effects whose dependencies it changed;
    - an [await] splits a function in two: the part before it, and a
      continuation that takes the settled promise as an argument;
    - [Date.now()] and the delay of time are inputs. *)

From stdpp Require Import base list gmap strings.
From Stdlib Require Import ZArith Lia Sorted.

(** ** types.ts *)

Module Types.

Record Question := mkQuestion {
  id : Z;
  text : string;
  explanation : string;
  category : string;
  searchQuery : string
}.

Record Answer := mkAnswer {
  questionId : Z;
  value : Z;              (* 0 (Vet ej), 1-5 *)
  isImportant : bool;
  comment : option string (* comment?: string *)
}.

(** The analysis payload is passed through by the controller and never
    inspected; only its summary is kept here. *)
Record AnalysisResult := mkAnalysisResult {
  summary : string
}.

Inductive AppState :=
| INTRO
| LOADING_QUESTIONS
| QUIZ
| ANALYZING
| RESULTS
| ERROR.

Record SavedSession := mkSavedSession {
  state : AppState;
  questions : list Question;
  answers : list Answer;
  result : option AnalysisResult;
  lastUpdated : Z
}.

#[global] Instance Question_eq_dec : EqDecision Question.
Proof. solve_decision. Defined.

#[global] Instance Answer_eq_dec : EqDecision Answer.
Proof. solve_decision. Defined.

#[global] Instance AppState_eq_dec : EqDecision AppState.
Proof. solve_decision. Defined.

End Types.

(** ** services/geminiService.ts: the retry policy *)

Module GeminiService.

(** A thrown value, as far as [retryOperation] looks at it:
    [error.message?.includes(...)]. *)
Record JsError := mkError {
  message : option string
}.

(** How a promise settles. *)
Inductive Settled (T : Type) :=
| Fulfilled (v : T)
| Rejected (e : JsError).
Arguments Fulfilled {T} v.
Arguments Rejected {T} e.

(** [String.prototype.includes]. *)
Fixpoint includes (needle s : string) : bool :=
  String.prefix needle s ||
  match s with
  | EmptyString => false
  | String _ s' => includes needle s'
  end.

(** [error.message?.includes('429') || error.message?.includes('503')
     || error.message?.includes('quota')] *)
Definition isRateLimit (error : JsError) : bool :=
  match message error with
  | None => false
  | Some m => includes "429" m || includes "503" m || includes "quota" m
  end.

(** What one run of [retryOperation] did: how its promise settled, how
    many times it invoked the operation, and the delays (ms) handed to
    [setTimeout] between the invocations, in order. *)
Record Run (T : Type) := mkRun {
  settled : Settled T;
  calls : nat;
  slept : list Z
}.
Arguments mkRun {T} settled calls slept.
Arguments settled {T} r.
Arguments calls {T} r.
Arguments slept {T} r.

(** The [for] loop of [retryOperation], entered at index [i] with
    [remaining = maxRetries - i] iterations left.  The operation is
    effectful, so it is given as the outcome of each invocation:
    [operation i] is how the invocation of iteration [i] settles. *)
Fixpoint retryLoop {T} (operation : nat -> Settled T) (maxRetries : nat)
    (remaining i : nat) (delay : Z) : Run T :=
  match remaining with
  | O => mkRun (Rejected (mkError (Some "Max retries exceeded"))) 0 []
  | S remaining' =>
      match operation i with
      | Fulfilled v => mkRun (Fulfilled v) 1 []
      | Rejected error =>
          if (i =? maxRetries - 1)%nat || negb (isRateLimit error)
          then mkRun (Rejected error) 1 []
          else
            let r := retryLoop operation maxRetries remaining' (S i) (delay * 2) in
            mkRun (settled r) (S (calls r)) (delay :: slept r)
      end
  end.

Definition retryOperation {T} (operation : nat -> Settled T) (maxRetries : nat) : Run T :=
  retryLoop operation maxRetries maxRetries 0 1000.

(** [generateQuestions] and [analyzeResults] have one shape: [getAIClient]
    throws when the API key is missing, before any attempt; otherwise the
    request runs under [retryOperation] with the default [maxRetries = 3]. *)
Definition callService {T} (hasApiKey : bool) (operation : nat -> Settled T) : Settled T :=
  if hasApiKey then settled (retryOperation operation 3)
  else Rejected (mkError (Some "API Key is missing")).

Definition generateQuestions := @callService (list Types.Question).
Definition analyzeResults := @callService Types.AnalysisResult.

(** An upstream that answers every attempt with HTTP 429. *)
Definition always429 {T} : nat -> Settled T :=
  fun _ => Rejected (mkError (Some "got status: 429 Too Many Requests")).

(** An upstream that rejects the credentials. *)
Definition badKey {T} : nat -> Settled T :=
  fun _ => Rejected (mkError (Some "API key not valid")).

End GeminiService.

(** ** components/Quiz.tsx: answer capture *)

Module Quiz.

Definition AUTO_ADVANCE_DELAY : N := 5500. (* ms *)

(** What one render of the component closes over: its props
    ([questions], [totalCount]) and its [useState] cells. *)
Record Render := mkRender {
  questions : list Types.Question;
  totalCount : option nat;
  currentIndex : nat;
  answers : list Types.Answer;
  selectedValue : option Z;
  isImportant : bool;
  comment : string;
  isNuancing : bool;
  isAutoAdvancing : bool
}.

Definition setCurrentIndex (i : nat) (r : Render) : Render :=
  mkRender (questions r) (totalCount r) i (answers r) (selectedValue r)
    (isImportant r) (comment r) (isNuancing r) (isAutoAdvancing r).
Definition setAnswers (l : list Types.Answer) (r : Render) : Render :=
  mkRender (questions r) (totalCount r) (currentIndex r) l (selectedValue r)
    (isImportant r) (comment r) (isNuancing r) (isAutoAdvancing r).
Definition setSelectedValue (v : option Z) (r : Render) : Render :=
  mkRender (questions r) (totalCount r) (currentIndex r) (answers r) v
    (isImportant r) (comment r) (isNuancing r) (isAutoAdvancing r).
Definition setIsImportant (b : bool) (r : Render) : Render :=
  mkRender (questions r) (totalCount r) (currentIndex r) (answers r) (selectedValue r)
    b (comment r) (isNuancing r) (isAutoAdvancing r).
Definition setComment (s : string) (r : Render) : Render :=
  mkRender (questions r) (totalCount r) (currentIndex r) (answers r) (selectedValue r)
    (isImportant r) s (isNuancing r) (isAutoAdvancing r).
Definition setIsNuancing (b : bool) (r : Render) : Render :=
  mkRender (questions r) (totalCount r) (currentIndex r) (answers r) (selectedValue r)
    (isImportant r) (comment r) b (isAutoAdvancing r).
Definition setIsAutoAdvancing (b : bool) (r : Render) : Render :=
  mkRender (questions r) (totalCount r) (currentIndex r) (answers r) (selectedValue r)
    (isImportant r) (comment r) (isNuancing r) b.
Definition withQuestions (qs : list Types.Question) (r : Render) : Render :=
  mkRender qs (totalCount r) (currentIndex r) (answers r) (selectedValue r)
    (isImportant r) (comment r) (isNuancing r) (isAutoAdvancing r).

(** [const currentQuestion = questions[currentIndex]] *)
Definition currentQuestion (r : Render) : option Types.Question :=
  questions r !! currentIndex r.

(** [const finalCount = totalCount || questions.length] *)
Definition finalCount (r : Render) : nat :=
  match totalCount r with
  | Some (S n) => S n
  | _ => length (questions r)
  end.

(** The callback handed to [setTimeout] in [handleSelection]:
    [() => goToNext(value)], with the render whose [goToNext] it calls,
    and the time left before it runs. *)
Record Timer := mkTimer {
  remaining : N;
  timerValue : Z;
  timerEnv : Render
}.

(** The mounted component: the latest render, the scheduled callback
    behind [autoAdvanceTimerRef] if one is still pending (every path that
    overwrites the ref clears the previous timeout first, so at most one
    is), and the calls made to the [onComplete] prop so far. *)
Record Component := mkComponent {
  view : Render;
  autoAdvanceTimerRef : option Timer;
  onCompleteCalls : list (list Types.Answer)
}.

Definition update (f : Render -> Render) (c : Component) : Component :=
  mkComponent (f (view c)) (autoAdvanceTimerRef c) (onCompleteCalls c).
Definition clearTimeout (c : Component) : Component :=
  mkComponent (view c) None (onCompleteCalls c).
Definition setTimeout (t : Timer) (c : Component) : Component :=
  mkComponent (view c) (Some t) (onCompleteCalls c).
Definition onComplete (l : list Types.Answer) (c : Component) : Component :=
  mkComponent (view c) (autoAdvanceTimerRef c) (onCompleteCalls c ++ [l]).

(** The white space and the line terminators that
    [String.prototype.trim] strips, each as the bytes of its UTF-8
    encoding, in reading order: U+0009 to U+000D and U+0020 (one byte);
    U+00A0 (C2 A0); U+1680 (E1 9A 80); U+2000 to U+200A, U+2028, U+2029
    and U+202F (E2 80 80..8A, A8, A9, AF); U+205F (E2 81 9F); U+3000
    (E3 80 80); U+FEFF (EF BB BF). *)
Definition isWhiteSpace (bytes : list nat) : bool :=
  match bytes with
  | [b] => bool_decide (b ∈ [9; 10; 11; 12; 13; 32])
  | [b1; b2] => (b1 =? 194) && (b2 =? 160)
  | [b1; b2; b3] =>
      (b1 =? 225) && (b2 =? 154) && (b3 =? 128) ||
      (b1 =? 226) && (b2 =? 128) &&
        ((128 <=? b3) && (b3 <=? 138) || bool_decide (b3 ∈ [168; 169; 175])) ||
      (b1 =? 226) && (b2 =? 129) && (b3 =? 159) ||
      (b1 =? 227) && (b2 =? 128) && (b3 =? 128) ||
      (b1 =? 239) && (b2 =? 187) && (b3 =? 191)
  | _ => false
  end.

(** Strip the white space a string starts with.  [order] is the
    identity when the string is read forwards, and [reverse] when it is
    read backwards, from its end. *)
Fixpoint stripWhiteSpace (order : list nat → list nat) (s : string) : string :=
  match s with
  | EmptyString => EmptyString
  | String b1 s1 =>
      if isWhiteSpace (order [Ascii.nat_of_ascii b1]) then stripWhiteSpace order s1
      else
        match s1 with
        | EmptyString => s
        | String b2 s2 =>
            if isWhiteSpace (order [Ascii.nat_of_ascii b1; Ascii.nat_of_ascii b2])
            then stripWhiteSpace order s2
            else
              match s2 with
              | EmptyString => s
              | String b3 s3 =>
                  if isWhiteSpace
                       (order [Ascii.nat_of_ascii b1; Ascii.nat_of_ascii b2;
                               Ascii.nat_of_ascii b3])
                  then stripWhiteSpace order s3
                  else s
              end
        end
  end.

Definition trimStart (s : string) : string :=
  stripWhiteSpace id s.

Definition trimEnd (s : string) : string :=
  String.rev (stripWhiteSpace reverse (String.rev s)).

Definition trim (s : string) : string :=
  trimEnd (trimStart s).

(** The [answerObject] of [saveAnswer]. *)
Definition answerObject (q : Types.Question) (value : Z) (important : bool)
    (text : string) : Types.Answer :=
  Types.mkAnswer (Types.id q) value important
    (if decide (trim text = "") then None else Some text).

(** [newAnswers.findIndex(a => a.questionId === currentQuestion.id)],
    then [newAnswers[existingIndex] = answerObject] or [push]. *)
Definition upsert (a : Types.Answer) (l : list Types.Answer) : list Types.Answer :=
  match list_find (λ b, Types.questionId b = Types.questionId a) l with
  | Some (existingIndex, _) => <[existingIndex := a]> l
  | None => l ++ [a]
  end.

(** One call of [saveAnswer]: the current question and the capture
    state it reads. *)
Record Commit := mkCommit {
  commitQuestion : Types.Question;
  commitValue : Z;
  commitImportant : bool;
  commitComment : string
}.

Definition commitAnswer (k : Commit) : Types.Answer :=
  answerObject (commitQuestion k) (commitValue k) (commitImportant k) (commitComment k).

(** The answer list after the commits [ks], oldest first, on top of [l]. *)
Definition saveAll (ks : list Commit) (l : list Types.Answer) : list Types.Answer :=
  foldl (λ l k, upsert (commitAnswer k) l) l ks.

(** [saveAnswer], as far as it computes [newAnswers]; [None] is the
    [TypeError] of [currentQuestion.id] when there is no current
    question. *)
Definition saveAnswer (env : Render) (value : Z) : option (list Types.Answer) :=
  match currentQuestion env with
  | None => None
  | Some q => Some (upsert (answerObject q value (isImportant env) (comment env)) (answers env))
  end.

(** The effect with dependencies [[currentIndex, currentQuestion, answers]]. *)
Definition resetEffect (c : Component) : Component :=
  let c := update (setIsAutoAdvancing false) (clearTimeout c) in
  let r := view c in
  let currentId := Types.id <$> currentQuestion r in
  match list_find (λ a, Some (Types.questionId a) = currentId) (answers r) with
  | Some (_, existing) =>
      let text := default "" (Types.comment existing) in
      update (λ r, setIsNuancing (bool_decide (text ≠ ""))
                (setComment text
                (setIsImportant (Types.isImportant existing)
                (setSelectedValue (Some (Types.value existing)) r)))) c
  | None =>
      update (λ r, setIsNuancing false
                (setComment ""
                (setIsImportant false
                (setSelectedValue None r)))) c
  end.

(** [goToNext(value)] as the render [env] defines it, run on the mounted
    component [c]; the effect follows because [setAnswers] was handed a
    new array.  [setCurrentIndex(prev => prev + 1)] reads the latest
    index, everything else the render [env].  (On [onComplete] the parent
    leaves the QUIZ state and unmounts the component; here the call is
    recorded.) *)
Definition goToNext (env : Render) (value : Z) (c : Component) : Component :=
  match saveAnswer env value with
  | None => c
  | Some finalAnswers =>
      let c := update (setAnswers finalAnswers) c in
      if (Z.of_nat (currentIndex env) <? Z.of_nat (length (questions env)) - 1)%Z
      then resetEffect (update (λ r, setCurrentIndex (currentIndex r + 1) r) c)
      else if (length (questions env) <? finalCount env)%nat
      then resetEffect (onComplete finalAnswers c)
      else resetEffect (onComplete finalAnswers c)
  end.

Definition handleNextClick (c : Component) : Component :=
  match selectedValue (view c) with
  | None => c
  | Some v => goToNext (view c) v c
  end.

Definition handleBack (c : Component) : Component :=
  let c := clearTimeout c in
  if (0 <? currentIndex (view c))%nat
  then resetEffect (update (λ r, setCurrentIndex (currentIndex r - 1) r) c)
  else c.

Definition handleSelection (value : Z) (c : Component) : Component :=
  let env := view c in
  let c := update (setSelectedValue (Some value)) c in
  if isNuancing env then c
  else
    setTimeout (mkTimer AUTO_ADVANCE_DELAY value env)
      (clearTimeout (update (setIsAutoAdvancing true) c)).

Definition stopAutoAdvance (c : Component) : Component :=
  update (λ r, setIsNuancing true (setIsAutoAdvancing false r)) (clearTimeout c).

(** [d] milliseconds pass: the pending callback runs once its delay is
    over. *)
Definition elapse (d : N) (c : Component) : Component :=
  match autoAdvanceTimerRef c with
  | None => c
  | Some t =>
      if (remaining t <=? d)%N
      then goToNext (timerEnv t) (timerValue t) (clearTimeout c)
      else setTimeout (mkTimer (remaining t - d)%N (timerValue t) (timerEnv t)) c
  end.

(** The parent appended questions to the [questions] prop; the effect
    runs when that changes [currentQuestion]. *)
Definition questionsArrived (validNew : list Types.Question) (c : Component) : Component :=
  let c' := update (λ r, withQuestions (questions r ++ validNew) r) c in
  if decide (currentQuestion (view c') = currentQuestion (view c)) then c'
  else resetEffect c'.

(** Mounting: the [useState] initial values, then the effect. *)
Definition mount (qs : list Types.Question) (total : option nat) : Component :=
  resetEffect (mkComponent (mkRender qs total 0 [] None false "" false false) None []).

(** What can happen to a mounted component.  The handlers are taken as
    they are written, callable in every state; the page offers them in
    fewer (Back is disabled on the first question, the pause button is
    there only during the countdown, the comment box only when open). *)
Inductive Event :=
| Select (value : Z)          (* an option button, or "Vet ej" with 0 *)
| Pause                       (* the "Stoppa" button: stopAutoAdvance *)
| CloseComment                (* the X of the comment box *)
| ToggleImportant
| TypeComment (s : string)
| Next                        (* handleNextClick *)
| Back                        (* handleBack *)
| Elapse (d : N)
| QuestionsArrived (validNew : list Types.Question).

Definition step (e : Event) (c : Component) : Component :=
  match e with
  | Select v => handleSelection v c
  | Pause => stopAutoAdvance c
  | CloseComment => update (setIsNuancing false) c
  | ToggleImportant => update (λ r, setIsImportant (negb (isImportant r)) r) c
  | TypeComment s => update (setComment s) c
  | Next => handleNextClick c
  | Back => handleBack c
  | Elapse d => elapse d c
  | QuestionsArrived validNew => questionsArrived validNew c
  end.

Definition run (evs : list Event) (c : Component) : Component :=
  foldl (λ c e, step e c) c evs.

(** What happens without the user doing anything: time passes, and
    the parent hands down more questions. *)
Definition isPassive (e : Event) : bool :=
  match e with
  | Elapse _ | QuestionsArrived _ => true
  | _ => false
  end.

(** The time that passes over the events [evs]. *)
Fixpoint elapsed (evs : list Event) : N :=
  match evs with
  | [] => 0
  | Elapse d :: evs' => d + elapsed evs'
  | _ :: evs' => elapsed evs'
  end.

(** The events that edit the capture state of the current question
    without committing it and without letting time pass. *)
Definition isEdit (e : Event) : bool :=
  match e with
  | Select _ | Pause | CloseComment | ToggleImportant | TypeComment _ => true
  | _ => false
  end.

(** The events after which the grace timer cannot be running again once
    the comment box is open. *)
Definition keepsCommentOpen (e : Event) : bool :=
  match e with
  | Select _ | Pause | ToggleImportant | TypeComment _
  | Elapse _ | QuestionsArrived _ => true
  | _ => false
  end.

(** [staysBefore i evs c]: running [evs] from [c], question [i] is never
    the current one. *)
Fixpoint staysBefore (i : nat) (evs : list Event) (c : Component) : Prop :=
  match evs with
  | [] => True
  | e :: evs' => currentIndex (view (step e c)) ≠ i ∧ staysBefore i evs' (step e c)
  end.

(** The stored answer for a question id, if any: [answers.find]. *)
Definition answerFor (qid : Z) (l : list Types.Answer) : option Types.Answer :=
  snd <$> list_find (λ a, Types.questionId a = qid) l.

(** [before i qid o r]: in render [r] the current question comes before
    index [i], the stored answer for the id [qid] is [o] (none when [o]
    is [None]), and no question before index [i] has that id. *)
Definition before (i : nat) (qid : Z) (o : option Types.Answer) (r : Render) : Prop :=
  currentIndex r < i ∧
  answerFor qid (answers r) = o ∧
  (∀ j q, j < i → questions r !! j = Some q → Types.id q ≠ qid).

(** The component is away from question [i], whose id is [qid] and
    whose stored answer is [o]; a pending callback closes over a render of
    which the same is true. *)
Definition away (i : nat) (qid : Z) (o : option Types.Answer) (c : Component) : Prop :=
  before i qid o (view c) ∧
  (∃ q, questions (view c) !! i = Some q ∧ Types.id q = qid) ∧
  (∀ t, autoAdvanceTimerRef c = Some t → before i qid o (timerEnv t)).

(** The capture state that shows the stored answer [o]: its value,
    importance and comment, or nothing selected, not important and an
    empty comment when there is none. *)
Definition shows (o : option Types.Answer) (r : Render) : Prop :=
  selectedValue r = Types.value <$> o ∧
  isImportant r = from_option Types.isImportant false o ∧
  comment r = default "" (o ≫= Types.comment).

(** The component has just come to question [i] and shows its stored
    answer [o]. *)
Definition arrived (i : nat) (qid : Z) (o : option Types.Answer) (c : Component) : Prop :=
  currentIndex (view c) = i ∧
  shows o (view c) ∧
  answerFor qid (answers (view c)) = o.

(** Every question before the current one has a stored answer (the
    index grows only in [goToNext], which saves first), and a pending
    callback closes over the current question, index and answers. *)
Definition caughtUp (c : Component) : Prop :=
  (∀ j, j < currentIndex (view c) →
     ∃ q, questions (view c) !! j = Some q ∧
          is_Some (answerFor (Types.id q) (answers (view c)))) ∧
  (∀ t, autoAdvanceTimerRef c = Some t →
     currentQuestion (timerEnv t) = currentQuestion (view c) ∧
     currentIndex (timerEnv t) = currentIndex (view c) ∧
     answers (timerEnv t) = answers (view c)).

(** The answer list of the component is the outcome of a sequence of
    commits, and a pending callback closes over that same list (so that
    its commit drops nothing). *)
Definition savedBy (ks : list Commit) (c : Component) : Prop :=
  answers (view c) = saveAll ks [] ∧
  ∀ t, autoAdvanceTimerRef c = Some t → answers (timerEnv t) = answers (view c).

(** The call of [saveAnswer] that the event [e] leads to on the
    component [c], if any, with the current question and the capture
    state the call reads: Next calls [goToNext] of the current render with
    the selected value, a callback that runs calls [goToNext] of the
    render it closes over with the value of the click.  (Without a current
    question [saveAnswer] throws before it stores anything.) *)
Definition commitOf (e : Event) (c : Component) : option Commit :=
  match e with
  | Next =>
      match selectedValue (view c), currentQuestion (view c) with
      | Some v, Some q => Some (mkCommit q v (isImportant (view c)) (comment (view c)))
      | _, _ => None
      end
  | Elapse d =>
      match autoAdvanceTimerRef c with
      | Some t =>
          if (remaining t <=? d)%N
          then
            match currentQuestion (timerEnv t) with
            | Some q =>
                Some (mkCommit q (timerValue t) (isImportant (timerEnv t))
                        (comment (timerEnv t)))
            | None => None
            end
          else None
      | None => None
      end
  | _ => None
  end.

(** The commits of a session: the calls of [saveAnswer] while the
    events [evs] run from [c], oldest first. *)
Fixpoint commits (evs : list Event) (c : Component) : list Commit :=
  match evs with
  | [] => []
  | e :: evs' => option_list (commitOf e c) ++ commits evs' (step e c)
  end.

(** The lists handed to [onComplete] so far are answer lists after some
    of the commits [ks], the oldest ones. *)
Definition handedOver (ks : list Commit) (c : Component) : Prop :=
  Forall (λ l, ∃ ks', ks' `prefix_of` ks ∧ l = saveAll ks' []) (onCompleteCalls c).

End Quiz.

(** ** App.tsx: the session orchestrator *)

Module App.

Definition TARGET_QUESTIONS : nat := 50.

(** [1000 * 60 * 60 * 24], the age in ms past which a stored session is
    not restored. *)
Definition SESSION_TTL : Z := 1000 * 60 * 60 * 24.

(** The value under [SESSION_KEY], as [JSON.parse] sees it: text on
    which it throws, or text that parses to a [SavedSession].  (The empty
    string is text on which it would throw, but is never handed to it.) *)
Inductive StoredItem :=
| Malformed (raw : string)
| Json (saved : Types.SavedSession).

(** The component's [useState] cells, the [currentSessionId] ref, and
    the [localStorage] entry under [SESSION_KEY] ([None]: no entry). *)
Record App := mkApp {
  state : Types.AppState;
  questions : list Types.Question;
  answers : list Types.Answer;
  result : option Types.AnalysisResult;
  error : option string;
  currentSessionId : Z;
  localStorage : option StoredItem
}.

Definition initial (stored : option StoredItem) : App :=
  mkApp Types.INTRO [] [] None None 0 stored.

(** The effect with dependencies [[state, questions, answers, result]];
    [now] is its [Date.now()]. *)
Definition saveEffect (now : Z) (a : App) : App :=
  if decide (state a ≠ Types.INTRO ∧ state a ≠ Types.ERROR)
  then mkApp (state a) (questions a) (answers a) (result a) (error a) (currentSessionId a)
         (Some (Json (Types.mkSavedSession (state a) (questions a) (answers a) (result a) now)))
  else a.

(** [setQuestions(saved.questions); setAnswers(saved.answers);
     setResult(saved.result); setState(saved.state)] *)
Definition restore (saved : Types.SavedSession) (a : App) : App :=
  mkApp (Types.state saved) (Types.questions saved) (Types.answers saved)
    (Types.result saved) (error a) (currentSessionId a) (localStorage a).

(** [localStorage.removeItem(SESSION_KEY)] *)
Definition removeItem (a : App) : App :=
  mkApp (state a) (questions a) (answers a) (result a) (error a) (currentSessionId a) None.

(** The session half of the mount effect; [now] is its [Date.now()].
    [if (savedSessionStr)] skips a missing entry and the empty string. *)
Definition loadEffect (now : Z) (a : App) : App :=
  match localStorage a with
  | None => a
  | Some (Malformed raw) => if decide (raw = EmptyString) then a else removeItem a
  | Some (Json saved) =>
      if (now - Types.lastUpdated saved <? SESSION_TTL)%Z
      then restore saved a
      else a
  end.

(** Mounting the application: the mount effect reads the clock at [now],
    the save effect of the render that follows at [t]. *)
Definition mount (now t : Z) (stored : option StoredItem) : App :=
  saveEffect t (loadEffect now (initial stored)).

Record Batch := mkBatch {
  count : nat;
  start : Z
}.

Definition batches : list Batch :=
  [mkBatch 15 6; mkBatch 15 21; mkBatch 15 36].

(** The background loop suspended at its [await]: the token it was
    started with, its local accumulator, the batch whose request is in
    flight (with the accumulator as exclusion list) and the batches after
    it. *)
Record BgTask := mkBgTask {
  sessionId : Z;
  currentTotalQuestions : list Types.Question;
  inFlight : Batch;
  pending : list Batch
}.

(** [new Set(qs.map(q => q.id))] *)
Definition idSet (qs : list Types.Question) : gset Z :=
  list_to_set (Types.id <$> qs).

(** [newQs.filter(q => !existingIds.has(q.id))] *)
Definition uniqueNew (currentTotal newQs : list Types.Question) : list Types.Question :=
  let existingIds := idSet currentTotal in
  filter (λ q, Types.id q ∉ existingIds) newQs.

(** The updater handed to [setQuestions] by the background loop. *)
Definition mergeQuestions (uniqueNew prev : list Types.Question) : list Types.Question :=
  let prevIds := idSet prev in
  let validNew := filter (λ q, Types.id q ∉ prevIds) uniqueNew in
  prev ++ validNew.

(** The head of the [for] loop: the token check, then the request. *)
Definition dispatch (a : App) (sid : Z) (currentTotal : list Types.Question)
    (todo : list Batch) : option BgTask :=
  match todo with
  | [] => None
  | batch :: rest =>
      if decide (currentSessionId a ≠ sid) then None
      else Some (mkBgTask sid currentTotal batch rest)
  end.

(** [startQuiz] up to its first [await]; [now] is the [Date.now()] that
    becomes the token, [t] the one of the save effect that follows. *)
Definition startQuiz (now t : Z) (a : App) : App :=
  saveEffect t
    (mkApp Types.LOADING_QUESTIONS [] (answers a) (result a) None now (localStorage a)).

(** [startQuiz] after [await generateQuestions(5, 1, [])] for the run
    with token [sid]: the new state and the background task, if one is
    left suspended. *)
Definition foregroundSettled (t : Z) (sid : Z)
    (r : GeminiService.Settled (list Types.Question)) (a : App) : App * option BgTask :=
  match r with
  | GeminiService.Fulfilled initialQuestions =>
      if decide (currentSessionId a ≠ sid) then (a, None)
      else
        let a' := saveEffect t
          (mkApp Types.QUIZ initialQuestions (answers a) (result a) (error a)
             (currentSessionId a) (localStorage a)) in
        (a', dispatch a' sid initialQuestions batches)
  | GeminiService.Rejected _ =>
      if decide (currentSessionId a ≠ sid) then (a, None)
      else
        (mkApp Types.ERROR (questions a) (answers a) (result a)
           (Some "Kunde inte generera frågor. Kontrollera din anslutning eller försök igen.")
           (currentSessionId a) (localStorage a), None)
  end.

(** The background loop resumed after [await generateQuestions(...)]
    of [task]. *)
Definition backgroundSettled (t : Z) (task : BgTask)
    (r : GeminiService.Settled (list Types.Question)) (a : App) : App * option BgTask :=
  match r with
  | GeminiService.Rejected _ => (a, None)
  | GeminiService.Fulfilled newQs =>
      if decide (currentSessionId a ≠ sessionId task) then (a, None)
      else
        let fresh := uniqueNew (currentTotalQuestions task) newQs in
        let currentTotal := currentTotalQuestions task ++ fresh in
        let a' := saveEffect t
          (mkApp (state a) (mergeQuestions fresh (questions a)) (answers a) (result a)
             (error a) (currentSessionId a) (localStorage a)) in
        (a', dispatch a' (sessionId task) currentTotal (pending task))
  end.

(** [handleQuizComplete] up to its [await]. *)
Definition handleQuizComplete (t : Z) (userAnswers : list Types.Answer) (a : App) : App :=
  saveEffect t
    (mkApp Types.ANALYZING (questions a) userAnswers (result a) (error a)
       (currentSessionId a) (localStorage a)).

(** [handleQuizComplete] after [await analyzeResults(...)]. *)
Definition analysisSettled (t : Z) (r : GeminiService.Settled Types.AnalysisResult)
    (a : App) : App :=
  match r with
  | GeminiService.Fulfilled analysis =>
      saveEffect t
        (mkApp Types.RESULTS (questions a) (answers a) (Some analysis) (error a)
           (currentSessionId a) (localStorage a))
  | GeminiService.Rejected _ =>
      mkApp Types.ERROR (questions a) (answers a) (result a)
        (Some "Kunde inte analysera resultaten. Försök igen.")
        (currentSessionId a) (localStorage a)
  end.

(** [restart]; [confirmed] is the answer to [window.confirm]. *)
Definition restart (confirmed : bool) (a : App) : App :=
  if confirmed
  then mkApp Types.INTRO [] [] None (error a) 0 None
  else a.

(** The "Fortsätt session" button is rendered on the intro page when
    [questions.length > 0]. *)
Definition resumeShown (a : App) : bool :=
  bool_decide (state a = Types.INTRO) && (0 <? length (questions a))%nat.

(** Its [onClick]:
    [setState(questions.length > 0 && result ? RESULTS : QUIZ)]. *)
Definition resume (t : Z) (a : App) : App :=
  let target :=
    if (0 <? length (questions a))%nat && bool_decide (is_Some (result a))
    then Types.RESULTS else Types.QUIZ in
  saveEffect t
    (mkApp target (questions a) (answers a) (result a) (error a)
       (currentSessionId a) (localStorage a)).

Definition clickResume (t : Z) (a : App) : App :=
  if resumeShown a then resume t a else a.

(** The [Quiz] element rendered in state [QUIZ]:
    [<Quiz questions={questions} totalCount={TARGET_QUESTIONS} .../>].
    When the state becomes [QUIZ] it is mounted afresh. *)
Definition mountedQuiz (a : App) : option Quiz.Component :=
  if decide (state a = Types.QUIZ)
  then Some (Quiz.mount (questions a) (Some TARGET_QUESTIONS))
  else None.

(** What can happen to the application. *)
Inductive Event :=
| Start (now t : Z)
| ForegroundSettled (t sid : Z) (r : GeminiService.Settled (list Types.Question))
| BackgroundSettled (t : Z) (task : BgTask) (r : GeminiService.Settled (list Types.Question))
| QuizComplete (t : Z) (userAnswers : list Types.Answer)
| AnalysisSettled (t : Z) (r : GeminiService.Settled Types.AnalysisResult)
| Restart (confirmed : bool)
| ClickResume (t : Z).

Definition step (e : Event) (a : App) : App :=
  match e with
  | Start now t => startQuiz now t a
  | ForegroundSettled t sid r => fst (foregroundSettled t sid r a)
  | BackgroundSettled t task r => fst (backgroundSettled t task r a)
  | QuizComplete t userAnswers => handleQuizComplete t userAnswers a
  | AnalysisSettled t r => analysisSettled t r a
  | Restart confirmed => restart confirmed a
  | ClickResume t => clickResume t a
  end.

Definition run (evs : list Event) (a : App) : App :=
  foldl (λ a e, step e a) a evs.

(** The tokens minted while [evs] run from [a], oldest first: the value
    of the [currentSessionId] ref right after each call of [startQuiz]. *)
Fixpoint mintedTokens (evs : list Event) (a : App) : list Z :=
  match evs with
  | [] => []
  | e :: evs' =>
      match e with
      | Start _ _ => [currentSessionId (step e a)]
      | _ => []
      end ++ mintedTokens evs' (step e a)
  end.

(** The clock readings [startQuiz] took its tokens from, oldest first. *)
Definition startClocks (evs : list Event) : list Z :=
  omap (λ e, match e with Start now _ => Some now | _ => None end) evs.







End App.

(** ** Concrete sessions *)

Module Scenario.

Definition question (n : Z) : Types.Question :=
  Types.mkQuestion n "Sverige ska bygga nya kärnkraftverk." "Bakgrund" "Energi" "kärnkraft".

(** The foreground batch: five questions with ids 1 to 5. *)
Definition foreground : list Types.Question :=
  question <$> [1; 2; 3; 4; 5]%Z.

(** A session started at [now]: the foreground batch has arrived, the
    request for ids 6 to 20 is in flight. *)
Definition started (now : Z) : App.App * option App.BgTask :=
  App.foregroundSettled (now + 900) now (GeminiService.Fulfilled foreground)
    (App.startQuiz now (now + 1) (App.initial None)).

Definition inFlightTask (now : Z) : App.BgTask :=
  App.mkBgTask now foreground (App.mkBatch 15 6) [App.mkBatch 15 21; App.mkBatch 15 36].

(** The user answers every question of the quiz with [v] and lets the
    grace period run out each time. *)
Definition answerAll (v : Z) (n : nat) : list Quiz.Event :=
  mjoin (replicate n [Quiz.Select v; Quiz.Elapse Quiz.AUTO_ADVANCE_DELAY]).


(** A quiz on its second question again, after the first and the
    second were answered (with 4 and 2) and Back was pressed on the
    third. *)
Definition revisitingSecond : Quiz.Component :=
  Quiz.run [Quiz.Select 4; Quiz.Next; Quiz.Select 2; Quiz.Next; Quiz.Back]
    (Quiz.mount foreground (Some App.TARGET_QUESTIONS)).

End Scenario.

(** * Properties *)

(** ** The retry policy *)

Section Retry.
Import GeminiService.
Context {T : Type}.
Implicit Types (operation : nat → Settled T) (delay : Z).

(** The delays of one run double from the first one, and there is one
    between each two consecutive invocations. *)
Lemma retryLoop_backoff operation maxRetries remaining i delay :
  i + remaining = maxRetries →
  let r := retryLoop operation maxRetries remaining i delay in
  calls r ≤ remaining ∧
  (0 < remaining → 0 < calls r) ∧
  slept r = (λ k, delay * 2 ^ Z.of_nat k)%Z <$> seq 0 (calls r - 1).
Proof.
  revert i delay. induction remaining as [|n IH]; intros i delay Hi; simpl.
  { split_and!; [lia | lia | done]. }
  destruct (operation i) as [v|e]; simpl.
  { split_and!; [lia | lia | done]. }
  destruct (Nat.eqb_spec i (maxRetries - 1)) as [Hlast|Hmore]; simpl.
  { split_and!; [lia | lia | done]. }
  destruct (isRateLimit e); simpl.
  2: { split_and!; [lia | lia | done]. }
  destruct (IH (S i) (delay * 2)%Z) as (Hc & Hpos & Hs); [lia |].
  split_and!; [lia | lia |].
  rewrite Hs. clear Hs.
  destruct (calls (retryLoop operation maxRetries n (S i) (delay * 2))) as [|k].
  { lia. }
  replace (S (S k) - 1) with (S k) by lia.
  replace (S k - 1) with k by lia.
  simpl. f_equal; [lia |].
  rewrite <- fmap_S_seq, <- list_fmap_compose.
  apply list_fmap_ext. intros _ j _. simpl.
  rewrite Nat2Z.inj_succ, Z.pow_succ_r by lia. lia.
Qed.

(** A failure that is not a rate limit leaves the loop at once. *)
Lemma retryLoop_fatal operation maxRetries remaining i delay e :
  operation i = Rejected e → isRateLimit e = false →
  retryLoop operation maxRetries (S remaining) i delay = mkRun (Rejected e) 1 [].
Proof.
  intros Hop Hfatal. simpl. rewrite Hop, Hfatal.
  by rewrite orb_true_r.
Qed.

(** A rate-limited failure before the last iteration sleeps [delay] and
    goes round again with the delay doubled. *)
Lemma retryLoop_transient operation maxRetries remaining i delay e :
  operation i = Rejected e → isRateLimit e = true → i ≠ maxRetries - 1 →
  retryLoop operation maxRetries (S remaining) i delay =
    let r := retryLoop operation maxRetries remaining (S i) (delay * 2) in
    mkRun (settled r) (S (calls r)) (delay :: slept r).
Proof.
  intros Hop Htransient Hi. simpl. rewrite Hop, Htransient.
  by rewrite (proj2 (Nat.eqb_neq _ _) Hi).
Qed.

End Retry.

(** C8, as stated, fails: against an upstream that answers every attempt
    with a rate limit, the three attempts are separated by delays of 1s
    and 2s, and the error escalates right after the third attempt; no
    delay of 4s is ever slept. *)
Lemma retryOperation_no_third_delay :
  let r := GeminiService.retryOperation (@GeminiService.always429 unit) 3 in
  GeminiService.calls r = 3 ∧
  GeminiService.slept r = [1000; 2000]%Z ∧
  GeminiService.slept r ≠ [1000; 2000; 4000]%Z.
Proof.
  split_and!.
  - reflexivity.
  - reflexivity.
  - vm_compute. discriminate.
Qed.

(** C8, amended: every upstream call makes at most 3 attempts; the
    delays between them are the first [calls - 1] of 1s, 2s; a failure
    that is not transient propagates on the first attempt with no delay;
    after two transient failures the third failure escalates, whatever it
    is, with delays 1s and 2s behind it; and a transient failure followed
    by a success costs one delay of 1s. *)
Theorem retryOperation_policy {T} (operation : nat → GeminiService.Settled T) :
  let r := GeminiService.retryOperation operation 3 in
  GeminiService.calls r ≤ 3 ∧
  GeminiService.slept r = take (GeminiService.calls r - 1) [1000; 2000]%Z ∧
  (∀ e, operation 0 = GeminiService.Rejected e →
        GeminiService.isRateLimit e = false →
        r = GeminiService.mkRun (GeminiService.Rejected e) 1 []) ∧
  (∀ e0 e1 e2,
        operation 0 = GeminiService.Rejected e0 → GeminiService.isRateLimit e0 = true →
        operation 1 = GeminiService.Rejected e1 → GeminiService.isRateLimit e1 = true →
        operation 2 = GeminiService.Rejected e2 →
        r = GeminiService.mkRun (GeminiService.Rejected e2) 3 [1000; 2000]%Z) ∧
  (∀ e0 v,
        operation 0 = GeminiService.Rejected e0 → GeminiService.isRateLimit e0 = true →
        operation 1 = GeminiService.Fulfilled v →
        r = GeminiService.mkRun (GeminiService.Fulfilled v) 2 [1000]%Z).
Proof.
  intros r.
  destruct (retryLoop_backoff operation 3 3 0 1000 eq_refl) as (Hcalls & _ & Hslept).
  fold (GeminiService.retryOperation operation 3) in Hcalls, Hslept. fold r in Hcalls, Hslept.
  split_and!.
  - exact Hcalls.
  - rewrite Hslept.
    destruct (GeminiService.calls r) as [|[|[|[|k]]]]; try reflexivity. lia.
  - intros e Hop Hfatal. subst r. unfold GeminiService.retryOperation.
    by apply retryLoop_fatal.
  - intros e0 e1 e2 H0 T0 H1 T1 H2. subst r. unfold GeminiService.retryOperation.
    rewrite (retryLoop_transient _ _ _ _ _ e0) by (done || lia).
    rewrite (retryLoop_transient _ _ _ _ _ e1) by (done || lia).
    simpl. by rewrite H2.
  - intros e0 v H0 T0 H1. subst r. unfold GeminiService.retryOperation.
    rewrite (retryLoop_transient _ _ _ _ _ e0) by (done || lia).
    simpl. by rewrite H1.
Qed.

(** The two ends of the policy on concrete upstreams: rejected
    credentials are not retried, a persistent rate limit is retried
    twice. *)
Lemma retryOperation_policy_witness :
  GeminiService.retryOperation (@GeminiService.badKey unit) 3 =
    GeminiService.mkRun (GeminiService.Rejected (GeminiService.mkError (Some "API key not valid"))) 1 [] ∧
  GeminiService.retryOperation (@GeminiService.always429 unit) 3 =
    GeminiService.mkRun
      (GeminiService.Rejected (GeminiService.mkError (Some "got status: 429 Too Many Requests")))
      3 [1000; 2000]%Z.
Proof.
  pose proof (retryOperation_policy (@GeminiService.badKey unit)) as (_ & _ & Hfatal & _).
  pose proof (retryOperation_policy (@GeminiService.always429 unit)) as (_ & _ & _ & Htransient & _).
  split.
  - apply Hfatal; reflexivity.
  - eapply Htransient; reflexivity.
Defined.

(** ** Session tokens and cancellation *)

Section Tokens.
Import App.

(** The only writers of the [currentSessionId] ref are [startQuiz] and
    [restart]. *)
Lemma saveEffect_token now a : currentSessionId (saveEffect now a) = currentSessionId a.
Proof. unfold saveEffect. by destruct (decide _). Qed.

Lemma step_token e a :
  currentSessionId (step e a) =
    match e with
    | Start now _ => now
    | Restart true => 0%Z
    | _ => currentSessionId a
    end.
Proof.
  destruct e as [now t|t sid r|t task r|t userAnswers|t r|confirmed|t];
    unfold step, startQuiz, foregroundSettled, backgroundSettled,
      handleQuizComplete, analysisSettled, restart, clickResume, resume.
  - by rewrite saveEffect_token.
  - destruct r; destruct (decide _); cbn [fst]; by rewrite ?saveEffect_token.
  - destruct r; [destruct (decide _) |]; cbn [fst]; by rewrite ?saveEffect_token.
  - by rewrite saveEffect_token.
  - destruct r; by rewrite ?saveEffect_token.
  - by destruct confirmed.
  - destruct (resumeShown a); by rewrite ?saveEffect_token.
Qed.

(** A token that is neither the current one, nor 0, nor read from the
    clock by a later start, never becomes current again. *)
Lemma run_token_stale evs a sid :
  sid ≠ 0%Z → sid ∉ startClocks evs →
  currentSessionId a ≠ sid → currentSessionId (run evs a) ≠ sid.
Proof.
  intros Hsid. revert a. induction evs as [|e evs IH]; intros a Hclocks Ha; [done |].
  unfold run. simpl. apply IH.
  - intros Hin. apply Hclocks. unfold startClocks. simpl.
    destruct e; simpl; try done. by right.
  - rewrite step_token. destruct e as [now ?| | | | |[]|]; try done.
    intros ->. apply Hclocks. unfold startClocks. simpl. by left.
Qed.

(** A completion whose token is not the current one changes nothing and
    ends its loop. *)
Lemma backgroundSettled_stale t task r a :
  currentSessionId a ≠ sessionId task →
  backgroundSettled t task r a = (a, None).
Proof.
  intros Hstale. unfold backgroundSettled. destruct r; [|done].
  by destruct (decide _).
Qed.

Lemma mintedTokens_startClocks evs a : mintedTokens evs a = startClocks evs.
Proof.
  revert a. induction evs as [|e evs IH]; intros a; [done |].
  simpl. rewrite IH. unfold startClocks.
  destruct e; simpl; done.
Qed.

End Tokens.

(** C1, as stated, fails: the token of a session is the clock reading
    of its start, and a completion is discarded only when that token is
    not the current one.  A session is started at 1.7e12 ms and restarted
    while its request for ids 6 to 20 is in flight; the user starts again
    and the clock, set back in the meantime, reads 1.7e12 ms once more;
    then the old request succeeds.  Its token is the current one, so its
    questions are put into the list of the new session, which is still
    loading, and its loop goes on to ask for the batch from id 21.  And a
    session whose start read the clock at 0 has the token that restart
    sets: the completion of its batch is merged into the state right after
    the restart, on the intro page. *)
Lemma restart_keeps_batch_of_same_token :
  let T := 1700000000000%Z in
  let restarted := App.restart true (Scenario.started T).1 in
  let fresh := App.run [App.Start T (T + 9001)] restarted in
  let late :=
    App.backgroundSettled (T + 12000) (Scenario.inFlightTask T)
      (GeminiService.Fulfilled (Scenario.question <$> [6; 7]%Z)) fresh in
  let late0 :=
    App.backgroundSettled 12000 (Scenario.inFlightTask 0)
      (GeminiService.Fulfilled (Scenario.question <$> [6; 7]%Z))
      (App.restart true (Scenario.started 0).1) in
  App.questions restarted = [] ∧
  App.questions fresh = [] ∧
  (Types.id <$> App.questions late.1) = [6; 7]%Z ∧
  late.1 ≠ fresh ∧
  (App.start <$> (App.inFlight <$> late.2)) = Some 21%Z ∧
  App.state late0.1 = Types.INTRO ∧
  (Types.id <$> App.questions late0.1) = [6; 7]%Z.
Proof.
  split_and!; try (vm_compute; reflexivity).
  intros Hsame. apply (f_equal App.questions) in Hsame.
  vm_compute in Hsame. discriminate Hsame.
Qed.

(** C1, amended: a confirmed restart sets the token to 0, so the
    completion of a background batch that was in flight, whether it
    succeeds or fails, is discarded, provided that the batch's token (the
    clock reading of its start) is not 0 and that no start after the
    restart reads the very same clock value: it then leaves the whole
    state established after the restart, and by whatever happened since
    (state, questions, answers, result, error, token and stored
    snapshot), as it is, and its loop requests no further batch. *)
Theorem restart_discards_inflight_batch
    (a : App.App) (task : App.BgTask) (evs : list App.Event) (t : Z)
    (r : GeminiService.Settled (list Types.Question)) :
  App.sessionId task ≠ 0%Z →
  App.sessionId task ∉ App.startClocks evs →
  let fresh := App.run evs (App.restart true a) in
  App.backgroundSettled t task r fresh = (fresh, None) ∧
  App.step (App.BackgroundSettled t task r) fresh = fresh.
Proof.
  intros Hsid Hclocks fresh.
  assert (App.currentSessionId fresh ≠ App.sessionId task) as Hstale.
  { apply run_token_stale; [done | done |]. simpl. congruence. }
  simpl. rewrite backgroundSettled_stale by done. done.
Qed.

(** A session started at 1.7e12 ms is restarted while its request for
    ids 6 to 20 is in flight; the user starts again nine seconds later;
    then the old request succeeds. *)
Lemma restart_discards_inflight_batch_witness :
  let fresh :=
    App.run [App.Start 1700000009000 1700000009001]
      (App.restart true (Scenario.started 1700000000000).1) in
  App.backgroundSettled 1700000012000 (Scenario.inFlightTask 1700000000000)
    (GeminiService.Fulfilled (Scenario.question <$> [6; 7; 8]%Z)) fresh = (fresh, None) ∧
  App.step (App.BackgroundSettled 1700000012000 (Scenario.inFlightTask 1700000000000)
    (GeminiService.Fulfilled (Scenario.question <$> [6; 7; 8]%Z))) fresh = fresh.
Proof.
  apply (restart_discards_inflight_batch (Scenario.started 1700000000000).1
           (Scenario.inFlightTask 1700000000000)
           [App.Start 1700000009000 1700000009001]).
  - simpl. lia.
  - unfold App.startClocks. simpl. intros Hin.
    apply list_elem_of_singleton in Hin. lia.
Defined.

(** C6, as stated, fails: the token is [Date.now()], a wall clock.  A
    start made after the clock was set back a minute mints a token smaller
    than the one before it, and a start that reads the same millisecond
    mints the same token again. *)
Lemma token_not_strictly_increasing :
  App.mintedTokens
    [App.Start 1700000060000 1700000060001; App.Restart true;
     App.Start 1700000000000 1700000000001]
    (App.initial None) = [1700000060000; 1700000000000]%Z ∧
  ¬ StronglySorted Z.lt
      (App.mintedTokens
         [App.Start 1700000060000 1700000060001; App.Restart true;
          App.Start 1700000000000 1700000000001]
         (App.initial None)) ∧
  App.mintedTokens
    [App.Start 1700000000000 1700000000001; App.Restart true;
     App.Start 1700000000000 1700000000002]
    (App.initial None) = [1700000000000; 1700000000000]%Z.
Proof.
  split_and!; [reflexivity | | reflexivity].
  intros Hsorted. rewrite mintedTokens_startClocks in Hsorted.
  apply StronglySorted_inv in Hsorted as [_ Hlt].
  apply Forall_inv in Hlt. lia.
Qed.

(** C6, amended: the token minted by a start is the clock reading that
    start took; so the tokens of a run are strictly increasing, each one
    greater than every token before it, exactly when the clock readings
    of its starts are. *)
Theorem minted_tokens_follow_clock (evs : list App.Event) (a : App.App) :
  App.mintedTokens evs a = App.startClocks evs ∧
  (StronglySorted Z.lt (App.mintedTokens evs a) ↔
   StronglySorted Z.lt (App.startClocks evs)).
Proof.
  pose proof (mintedTokens_startClocks evs a) as Heq.
  split; [exact Heq |]. by rewrite Heq.
Qed.

(** ** Persistence *)

Section Persistence.
Import App.

Lemma saveEffect_state now a : state (saveEffect now a) = state a.
Proof. unfold saveEffect. by destruct (decide _). Qed.

Lemma saveEffect_questions now a : questions (saveEffect now a) = questions a.
Proof. unfold saveEffect. by destruct (decide _). Qed.

Lemma saveEffect_answers now a : answers (saveEffect now a) = answers a.
Proof. unfold saveEffect. by destruct (decide _). Qed.

Lemma saveEffect_error now a : error (saveEffect now a) = error a.
Proof. unfold saveEffect. by destruct (decide _). Qed.

End Persistence.

(** C7, as stated, fails in its last part: a snapshot written 25 hours
    ago is not restored (the application stays on the intro page with no
    questions), but it is still in the store after mounting. *)
Lemma expired_snapshot_stays_stored :
  let now := 1800000000000%Z in
  let saved :=
    Types.mkSavedSession Types.QUIZ Scenario.foreground [] None (now - 25 * 60 * 60 * 1000) in
  let a := App.mount now (now + 1) (Some (App.Json saved)) in
  App.state a = Types.INTRO ∧
  App.questions a = [] ∧
  App.localStorage a = Some (App.Json saved) ∧
  App.localStorage a ≠ None.
Proof.
  split_and!; try reflexivity. intros Hcleared. vm_compute in Hcleared. discriminate.
Qed.

(** C7, amended: a stored snapshot is restored exactly when
    [now - lastUpdated] is strictly less than 24 hours; an older one is
    treated as absent, the mount effect changing nothing at all, so the
    stored value stays in the store.  (The store is cleared only when its
    content does not parse.) *)
Theorem loadEffect_ttl (now : Z) (a : App.App) (saved : Types.SavedSession) :
  App.localStorage a = Some (App.Json saved) →
  App.SESSION_TTL = 86400000%Z ∧
  ((now - Types.lastUpdated saved < App.SESSION_TTL)%Z →
     App.loadEffect now a = App.restore saved a ∧
     App.state (App.loadEffect now a) = Types.state saved ∧
     App.questions (App.loadEffect now a) = Types.questions saved ∧
     App.answers (App.loadEffect now a) = Types.answers saved ∧
     App.result (App.loadEffect now a) = Types.result saved) ∧
  ((App.SESSION_TTL ≤ now - Types.lastUpdated saved)%Z →
     App.loadEffect now a = a ∧
     App.localStorage (App.loadEffect now a) = Some (App.Json saved)).
Proof.
  intros Hstored. split_and!; [reflexivity | |].
  - intros Hfresh. unfold App.loadEffect. rewrite Hstored.
    destruct (Z.ltb_spec (now - Types.lastUpdated saved) App.SESSION_TTL); [done | lia].
  - intros Hold. unfold App.loadEffect. rewrite Hstored.
    destruct (Z.ltb_spec (now - Types.lastUpdated saved) App.SESSION_TTL); [lia | done].
Qed.

(** A snapshot of one hour ago is restored; one of 25 hours ago is not
    and stays stored. *)
Lemma loadEffect_ttl_witness :
  let now := 1800000000000%Z in
  let recent := Types.mkSavedSession Types.QUIZ Scenario.foreground [] None (now - 3600000) in
  let old := Types.mkSavedSession Types.QUIZ Scenario.foreground [] None (now - 90000000) in
  App.state (App.loadEffect now (App.initial (Some (App.Json recent)))) = Types.QUIZ ∧
  App.loadEffect now (App.initial (Some (App.Json old))) = App.initial (Some (App.Json old)).
Proof.
  intros now recent old. split.
  - destruct (loadEffect_ttl now (App.initial (Some (App.Json recent))) recent eq_refl)
      as (_ & Hfresh & _).
    apply Hfresh. vm_compute. reflexivity.
  - destruct (loadEffect_ttl now (App.initial (Some (App.Json old))) old eq_refl)
      as (_ & _ & Hold).
    apply Hold. vm_compute. discriminate.
Defined.

(** A stored value that does not parse is removed and nothing is
    restored; the empty string is left where it is. *)
Lemma loadEffect_malformed now a raw :
  App.localStorage a = Some (App.Malformed raw) →
  App.loadEffect now a = if decide (raw = "") then a else App.removeItem a.
Proof. intros Hstored. unfold App.loadEffect. by rewrite Hstored. Qed.

(** ** Resuming *)


Section Resume.
Import App.
Implicit Types (a : App) (fg : list Z).

Lemma saveEffect_result now a : result (saveEffect now a) = result a.
Proof. unfold saveEffect. by destruct (decide _). Qed.








End Resume.

(** The handler of the resume button, wherever it runs: RESULTS when
    the question list is not empty and a result exists, and QUIZ
    otherwise, where the quiz is mounted afresh on the question list: at
    the first question, with no answer held and nothing selected. *)
Lemma resume_handler (t : Z) (a : App.App) :
  let a' := App.resume t a in
  App.questions a' = App.questions a ∧
  App.answers a' = App.answers a ∧
  App.result a' = App.result a ∧
  (App.questions a ≠ [] → is_Some (App.result a) → App.state a' = Types.RESULTS) ∧
  (App.questions a = [] ∨ App.result a = None →
     App.state a' = Types.QUIZ ∧
     App.mountedQuiz a' = Some (Quiz.mount (App.questions a) (Some App.TARGET_QUESTIONS))).
Proof.
  intros a'. subst a'. unfold App.resume.
  rewrite saveEffect_questions, saveEffect_answers, saveEffect_result. cbn [App.questions
    App.answers App.result].
  split_and!; [done | done | done | |].
  - intros Hqs Hres. rewrite saveEffect_state. simpl.
    destruct (App.questions a); [done |]. simpl.
    by rewrite bool_decide_eq_true_2.
  - intros Hno.
    assert ((0 <? length (App.questions a))%nat && bool_decide (is_Some (App.result a))
            = false) as ->.
    { destruct Hno as [-> | ->]; [done |]. rewrite andb_false_r. done. }
    unfold App.mountedQuiz. rewrite saveEffect_state, saveEffect_questions. simpl. done.
Qed.




(** ** Merging a background batch *)

Section Merge.
Import App.

Lemma elem_of_idSet (n : Z) (qs : list Types.Question) :
  n ∈ idSet qs ↔ n ∈ (Types.id <$> qs).
Proof. unfold idSet. by rewrite elem_of_list_to_set. Qed.

(** The two filters of the merge are one filter: an incoming question
    is appended when its id is in neither accumulator. *)
Lemma mergeQuestions_uniqueNew currentTotal prev newQs :
  mergeQuestions (uniqueNew currentTotal newQs) prev =
    prev ++ filter (λ q, (Types.id q ∉ idSet prev) ∧ (Types.id q ∉ idSet currentTotal)) newQs.
Proof. unfold mergeQuestions, uniqueNew. by rewrite list_filter_filter. Qed.

(** Appending questions whose ids are new and pairwise distinct keeps
    the ids of the visible list pairwise distinct. *)
Lemma mergeQuestions_NoDup currentTotal prev newQs :
  NoDup (Types.id <$> prev) → NoDup (Types.id <$> newQs) →
  NoDup (Types.id <$> mergeQuestions (uniqueNew currentTotal newQs) prev).
Proof.
  intros Hprev Hnew. rewrite mergeQuestions_uniqueNew, fmap_app.
  apply NoDup_app. split_and!; [done | |].
  - intros n Hn (q & -> & Hq)%list_elem_of_fmap.
    apply list_elem_of_filter in Hq as [[Hfresh _] _].
    by apply Hfresh, elem_of_idSet.
  - eapply sublist_NoDup; [exact Hnew |].
    apply fmap_sublist, sublist_filter.
Qed.

(** The appended questions are among the incoming ones whose id was
    not yet visible. *)
Lemma appended_sublist currentTotal prev newQs :
  filter (λ q, (Types.id q ∉ idSet prev) ∧ (Types.id q ∉ idSet currentTotal)) newQs
    `sublist_of` filter (λ q, Types.id q ∉ (Types.id <$> prev)) newQs.
Proof.
  induction newQs as [|q newQs IH]; [done |].
  rewrite !filter_cons.
  destruct (decide ((Types.id q ∉ idSet prev) ∧ _)) as [[Hq _]|_].
  - rewrite decide_True by (by rewrite <- elem_of_idSet). by apply sublist_skip.
  - destruct (decide _); [by apply sublist_cons | done].
Qed.

(** When the ids of the batch are pairwise distinct, what is appended
    is counted by the new ids themselves. *)
Lemma appended_distinct currentTotal prev newQs :
  NoDup (Types.id <$> newQs) →
  length (filter (λ q, (Types.id q ∉ idSet prev) ∧ (Types.id q ∉ idSet currentTotal)) newQs)
    ≤ size (idSet newQs ∖ idSet prev).
Proof.
  intros Hnew.
  set (added := filter _ newQs).
  assert (NoDup (Types.id <$> added)) as Hadded.
  { eapply sublist_NoDup; [exact Hnew |]. apply fmap_sublist, sublist_filter. }
  rewrite <- (length_fmap Types.id), <- (size_list_to_set (C := gset Z)) by done.
  apply subseteq_size. intros n (q & -> & Hq)%elem_of_list_to_set%list_elem_of_fmap.
  apply list_elem_of_filter in Hq as [[Hfresh _] Hin].
  apply elem_of_difference. split; [| done].
  apply elem_of_idSet. by apply list_elem_of_fmap_2.
Qed.

End Merge.

(** C4, as stated, fails: incoming questions are checked against the
    ids that are already there, never against each other.  With ids 1 to
    5 visible, a batch with the ids 5, 6 and 6 holds one id that is new;
    the question with id 5 is dropped, but both questions with id 6 are
    appended: the visible count grows by two, from 5 to 7, and id 6 is
    visible twice. *)
Lemma duplicate_within_batch_is_kept :
  let a := (Scenario.started 1700000000000).1 in
  let newQs := Scenario.question <$> [5; 6; 6]%Z in
  let a' :=
    (App.backgroundSettled 1700000003000 (Scenario.inFlightTask 1700000000000)
       (GeminiService.Fulfilled newQs) a).1 in
  (Types.id <$> App.questions a) = [1; 2; 3; 4; 5]%Z ∧
  size (App.idSet newQs ∖ App.idSet (App.questions a)) = 1 ∧
  (Types.id <$> App.questions a') = [1; 2; 3; 4; 5; 6; 6]%Z ∧
  length (App.questions a') = length (App.questions a) + 2 ∧
  ¬ NoDup (Types.id <$> App.questions a').
Proof.
  split_and!; try (vm_compute; reflexivity).
  intros Hdistinct. apply (bool_decide_pack _) in Hdistinct.
  vm_compute in Hdistinct. exact Hdistinct.
Qed.

(** C4, amended: when a background batch arrives for the current
    session, the visible list becomes the old visible list followed by
    those incoming questions whose id is in neither accumulator, in their
    order.  So every incoming question whose id was already visible is
    dropped and none is appended under such an id, the count grows by at
    most the number of incoming questions whose id was not yet visible
    (strictly less than the batch size when the batch holds an already
    visible id), and no error is raised: the session state and the error
    message stay as they were.  Incoming questions are counted one by one
    (two questions of one batch that share a new id are both appended);
    when the ids of the batch are pairwise distinct, the count grows by at
    most the number of ids that are new. *)
Theorem background_merge_drops_known_ids
    (t : Z) (task : App.BgTask) (newQs : list Types.Question) (a : App.App) :
  App.currentSessionId a = App.sessionId task →
  let a' := (App.backgroundSettled t task (GeminiService.Fulfilled newQs) a).1 in
  let added :=
    filter (λ q, (Types.id q ∉ App.idSet (App.questions a)) ∧
                 (Types.id q ∉ App.idSet (App.currentTotalQuestions task))) newQs in
  App.questions a' = App.questions a ++ added ∧
  (∀ q, q ∈ added → Types.id q ∉ (Types.id <$> App.questions a)) ∧
  length (App.questions a') ≤
    length (App.questions a) +
    length (filter (λ q, Types.id q ∉ (Types.id <$> App.questions a)) newQs) ∧
  (∀ q, q ∈ newQs → Types.id q ∈ (Types.id <$> App.questions a) →
        length (App.questions a') < length (App.questions a) + length newQs) ∧
  (NoDup (Types.id <$> newQs) →
        length (App.questions a') ≤
          length (App.questions a) + size (App.idSet newQs ∖ App.idSet (App.questions a))) ∧
  App.state a' = App.state a ∧
  App.error a' = App.error a.
Proof.
  intros Hcurrent a' added.
  assert (App.questions a' = App.questions a ++ added) as Hmerged.
  { subst a' added. unfold App.backgroundSettled.
    destruct (decide _) as [Hne|_]; [by destruct Hne |].
    cbn [fst]. rewrite saveEffect_questions. cbn [App.questions].
    apply mergeQuestions_uniqueNew. }
  split_and!.
  - exact Hmerged.
  - intros q [[Hq _] _]%list_elem_of_filter. by rewrite <- elem_of_idSet.
  - rewrite Hmerged, length_app. apply Nat.add_le_mono_l.
    apply sublist_length. subst added. apply appended_sublist.
  - intros q Hq Hknown. rewrite Hmerged, length_app. apply Nat.add_lt_mono_l.
    subst added. apply list_elem_of_split in Hq as (l1 & l2 & ->).
    rewrite filter_app, filter_cons, decide_False.
    2: { intros [Hfresh _]. by apply Hfresh, elem_of_idSet. }
    rewrite !length_app. simpl.
    pose proof (length_filter (λ q, (Types.id q ∉ App.idSet (App.questions a)) ∧
                 (Types.id q ∉ App.idSet (App.currentTotalQuestions task))) l1).
    pose proof (length_filter (λ q, (Types.id q ∉ App.idSet (App.questions a)) ∧
                 (Types.id q ∉ App.idSet (App.currentTotalQuestions task))) l2).
    lia.
  - intros Hnew. rewrite Hmerged, length_app. apply Nat.add_le_mono_l.
    subst added. by apply appended_distinct.
  - subst a'. unfold App.backgroundSettled.
    destruct (decide _); [done |]. cbn [fst]. by rewrite saveEffect_state.
  - subst a'. unfold App.backgroundSettled.
    destruct (decide _); [done |]. cbn [fst]. by rewrite saveEffect_error.
Qed.

(** The batch for ids 6 to 20 answers with ids 4, 5, 6, 7 while 1 to 5
    are visible: only 6 and 7 are appended. *)
Lemma background_merge_drops_known_ids_witness :
  App.questions
    (App.backgroundSettled 1700000003000 (Scenario.inFlightTask 1700000000000)
       (GeminiService.Fulfilled (Scenario.question <$> [4; 5; 6; 7]%Z))
       (Scenario.started 1700000000000).1).1 =
  Scenario.question <$> [1; 2; 3; 4; 5; 6; 7]%Z.
Proof.
  destruct (background_merge_drops_known_ids 1700000003000
              (Scenario.inFlightTask 1700000000000)
              (Scenario.question <$> [4; 5; 6; 7]%Z)
              (Scenario.started 1700000000000).1 eq_refl) as (Hmerged & _).
  rewrite Hmerged. vm_compute. reflexivity.
Defined.

(** ** The answer set *)

Section Upsert.
Import Quiz.
Implicit Types (a b : Types.Answer) (l : list Types.Answer).

(** [upsert] walks the list to the first entry with the same question
    id and replaces it, or appends at the end. *)
Lemma upsert_nil a : upsert a [] = [a].
Proof. reflexivity. Qed.

Lemma upsert_cons a b l :
  upsert a (b :: l) =
    if decide (Types.questionId b = Types.questionId a) then a :: l else b :: upsert a l.
Proof.
  unfold upsert. cbn [list_find].
  destruct (decide (Types.questionId b = Types.questionId a)); [done |].
  cbn [fmap option_fmap option_map].
  destruct (list_find _ l) as [[i x]|]; done.
Qed.

Lemma upsert_ids a l :
  Types.questionId <$> upsert a l =
    if decide (Types.questionId a ∈ (Types.questionId <$> l))
    then Types.questionId <$> l
    else (Types.questionId <$> l) ++ [Types.questionId a].
Proof.
  induction l as [|b l IH].
  - reflexivity.
  - rewrite upsert_cons. destruct (decide (Types.questionId b = _)) as [Heq|Hne].
    + rewrite decide_True by (rewrite fmap_cons, Heq; apply list_elem_of_here).
      simpl. by rewrite Heq.
    + rewrite !fmap_cons, IH.
      destruct (decide (_ ∈ (Types.questionId <$> l))) as [Hin|Hout].
      * rewrite decide_True by (by apply list_elem_of_further). done.
      * rewrite decide_False; [done |].
        intros [?|?]%elem_of_cons; congruence.
Qed.

(** No stored answer for an id that is not among the stored ids. *)
Lemma filter_absent qid l :
  qid ∉ (Types.questionId <$> l) → filter (λ b, Types.questionId b = qid) l = [].
Proof.
  induction l as [|b l IH]; intros Hout; [done |].
  rewrite fmap_cons in Hout. apply not_elem_of_cons in Hout as [Hb Hl].
  rewrite filter_cons, decide_False by congruence. by apply IH.
Qed.

(** One answer per question id is an invariant of [upsert]. *)
Lemma upsert_NoDup a l :
  NoDup (Types.questionId <$> l) → NoDup (Types.questionId <$> upsert a l).
Proof.
  intros Hl. rewrite upsert_ids. destruct (decide _) as [|Hout]; [done |].
  apply NoDup_app. split_and!; [done | | apply NoDup_singleton].
  intros n Hn ->%list_elem_of_singleton. done.
Qed.

(** After [upsert a], the entries for the id of [a] are [a] alone. *)
Lemma upsert_filter_same a l :
  NoDup (Types.questionId <$> l) →
  filter (λ b, Types.questionId b = Types.questionId a) (upsert a l) = [a].
Proof.
  induction l as [|b l IH]; intros Hl.
  - rewrite upsert_nil, filter_cons, decide_True by done. done.
  - rewrite fmap_cons in Hl. apply NoDup_cons in Hl as [Hb Hl].
    rewrite upsert_cons. destruct (decide (Types.questionId b = _)) as [Heq|Hne].
    + rewrite filter_cons, decide_True by done. f_equal.
      apply filter_absent. by rewrite <- Heq.
    + rewrite filter_cons, decide_False by done. by apply IH.
Qed.

(** The entries for every other id are untouched. *)
Lemma upsert_filter_other a l qid :
  Types.questionId a ≠ qid →
  filter (λ b, Types.questionId b = qid) (upsert a l) =
  filter (λ b, Types.questionId b = qid) l.
Proof.
  intros Hother. induction l as [|b l IH].
  - rewrite upsert_nil, filter_cons, decide_False by done. done.
  - rewrite upsert_cons. destruct (decide (Types.questionId b = _)) as [Heq|Hne].
    + rewrite !filter_cons, !decide_False by congruence. done.
    + rewrite !filter_cons, IH. done.
Qed.

Lemma saveAll_snoc ks k l :
  saveAll (ks ++ [k]) l = upsert (commitAnswer k) (saveAll ks l).
Proof. unfold saveAll. by rewrite foldl_app. Qed.

Lemma saveAll_NoDup ks l :
  NoDup (Types.questionId <$> l) → NoDup (Types.questionId <$> saveAll ks l).
Proof.
  intros Hl. induction ks as [|k ks IH] using rev_ind; [done |].
  rewrite saveAll_snoc. by apply upsert_NoDup.
Qed.

End Upsert.


(** ** The reset effect and [goToNext] *)

Section Capture.
Import Quiz.
Implicit Types (c : Component) (r env : Render).

Lemma resetEffect_timer c : autoAdvanceTimerRef (resetEffect c) = None.
Proof. unfold resetEffect. simpl. by destruct (list_find _ _) as [[??]|]. Qed.

Lemma resetEffect_calls c : onCompleteCalls (resetEffect c) = onCompleteCalls c.
Proof. unfold resetEffect. simpl. by destruct (list_find _ _) as [[??]|]. Qed.

Lemma resetEffect_questions c : questions (view (resetEffect c)) = questions (view c).
Proof. unfold resetEffect. simpl. by destruct (list_find _ _) as [[??]|]. Qed.

Lemma resetEffect_index c : currentIndex (view (resetEffect c)) = currentIndex (view c).
Proof. unfold resetEffect. simpl. by destruct (list_find _ _) as [[??]|]. Qed.

Lemma resetEffect_answers c : answers (view (resetEffect c)) = answers (view c).
Proof. unfold resetEffect. simpl. by destruct (list_find _ _) as [[??]|]. Qed.

(** The effect looks the current question up by id. *)
Lemma resetEffect_lookup c q :
  currentQuestion (view c) = Some q →
  list_find (λ a, Some (Types.questionId a) = Types.id <$> currentQuestion (view c))
    (answers (view c)) =
  list_find (λ a, Types.questionId a = Types.id q) (answers (view c)).
Proof.
  intros ->. apply list_find_ext. intros a. simpl. split; congruence.
Qed.

(** Entering a question shows its stored answer, or a cleared capture
    state when it has none. *)
Lemma resetEffect_shows c q :
  currentQuestion (view c) = Some q →
  shows (answerFor (Types.id q) (answers (view c))) (view (resetEffect c)).
Proof.
  intros Hq. unfold resetEffect, answerFor. cbn [view update clearTimeout].
  change (currentQuestion (setIsAutoAdvancing false (view c)))
    with (currentQuestion (view c)).
  change (answers (setIsAutoAdvancing false (view c))) with (answers (view c)).
  rewrite (resetEffect_lookup c q Hq).
  by destruct (list_find _ _) as [[i a]|].
Qed.

Lemma goToNext_saved env value c q :
  currentQuestion env = Some q →
  let final := upsert (answerObject q value (isImportant env) (comment env)) (answers env) in
  let c' := goToNext env value c in
  questions (view c') = questions (view c) ∧
  answers (view c') = final ∧
  autoAdvanceTimerRef c' = None ∧
  if (Z.of_nat (currentIndex env) <? Z.of_nat (length (questions env)) - 1)%Z
  then currentIndex (view c') = currentIndex (view c) + 1 ∧
       onCompleteCalls c' = onCompleteCalls c
  else currentIndex (view c') = currentIndex (view c) ∧
       onCompleteCalls c' = onCompleteCalls c ++ [final].
Proof.
  intros Hq final c'. subst final c'. unfold goToNext, saveAnswer. rewrite Hq.
  destruct (_ <? _)%Z; [| destruct (_ <? _)%nat];
    rewrite resetEffect_questions, resetEffect_answers, resetEffect_timer,
      resetEffect_index, resetEffect_calls; done.
Qed.

Lemma run_cons e evs c : run (e :: evs) c = run evs (step e c).
Proof. reflexivity. Qed.

Lemma run_app evs1 evs2 c : run (evs1 ++ evs2) c = run evs2 (run evs1 c).
Proof. unfold run. apply foldl_app. Qed.

(** More questions do not change the question that is shown. *)
Lemma questionsArrived_shown validNew c q :
  currentQuestion (view c) = Some q →
  questionsArrived validNew c = update (λ r, withQuestions (questions r ++ validNew) r) c ∧
  currentQuestion (view (questionsArrived validNew c)) = Some q.
Proof.
  intros Hq. unfold questionsArrived.
  assert (currentQuestion
            (view (update (λ r, withQuestions (questions r ++ validNew) r) c)) = Some q)
    as Hq'.
  { unfold currentQuestion in *. simpl. by apply lookup_app_l_Some. }
  rewrite decide_True by (by rewrite Hq, Hq'). done.
Qed.

(** With no callback pending, time and new questions neither commit nor
    advance, nor schedule anything. *)
Lemma step_idle e c :
  isPassive e = true → autoAdvanceTimerRef c = None →
  autoAdvanceTimerRef (step e c) = None ∧
  currentIndex (view (step e c)) = currentIndex (view c) ∧
  answers (view (step e c)) = answers (view c) ∧
  onCompleteCalls (step e c) = onCompleteCalls c.
Proof.
  intros He Hidle. destruct e; try discriminate He; simpl.
  - unfold elapse. by rewrite Hidle.
  - unfold questionsArrived. destruct (decide _); [done |].
    by rewrite resetEffect_timer, resetEffect_index, resetEffect_answers, resetEffect_calls.
Qed.

Lemma run_idle evs c :
  forallb isPassive evs = true → autoAdvanceTimerRef c = None →
  currentIndex (view (run evs c)) = currentIndex (view c) ∧
  answers (view (run evs c)) = answers (view c) ∧
  onCompleteCalls (run evs c) = onCompleteCalls c.
Proof.
  revert c. induction evs as [|e evs IH]; intros c Hevs Hidle; [done |].
  simpl in Hevs. apply andb_prop in Hevs as [He Hevs].
  destruct (step_idle e c He Hidle) as (Hidle' & Hi & Ha & Hc).
  rewrite run_cons. destruct (IH (step e c) Hevs Hidle') as (-> & -> & ->). done.
Qed.

(** The state of a component whose callback is still pending after the
    passive events [evs]: more questions may be there, the callback has
    less time left, nothing else has changed. *)
Lemma run_waiting evs c t q :
  autoAdvanceTimerRef c = Some t →
  currentQuestion (view c) = Some q →
  forallb isPassive evs = true →
  (elapsed evs < remaining t)%N →
  ∃ arrivedQs,
    run evs c =
      mkComponent (withQuestions (questions (view c) ++ arrivedQs) (view c))
        (Some (mkTimer (remaining t - elapsed evs) (timerValue t) (timerEnv t)))
        (onCompleteCalls c).
Proof.
  revert c t. induction evs as [|e evs IH]; intros c t Hpending Hq Hevs Hnotdue.
  { exists []. simpl. rewrite N.sub_0_r, app_nil_r.
    destruct c as [[] ? ?], t. simpl in *. by subst. }
  simpl in Hevs. apply andb_prop in Hevs as [He Hevs].
  rewrite run_cons. destruct e as [| | | | | | |d|validNew]; try discriminate He.
  - simpl in Hnotdue |- *. unfold elapse. rewrite Hpending.
    destruct (N.leb_spec (remaining t) d) as [|_]; [lia |].
    destruct (IH (setTimeout (mkTimer (remaining t - d) (timerValue t) (timerEnv t)) c)
                (mkTimer (remaining t - d) (timerValue t) (timerEnv t)))
      as [arrivedQs ->]; [done | done | done | simpl; lia |].
    exists arrivedQs. simpl. do 3 f_equal. lia.
  - simpl in Hnotdue |- *.
    destruct (questionsArrived_shown validNew c q Hq) as [-> Hq'].
    rewrite <- (proj1 (questionsArrived_shown validNew c q Hq)) in Hq'.
    destruct (IH (update (λ r, withQuestions (questions r ++ validNew) r) c) t)
      as [arrivedQs ->]; [done | | done | done |].
    { by rewrite <- (proj1 (questionsArrived_shown validNew c q Hq)). }
    exists (validNew ++ arrivedQs). simpl. by rewrite app_assoc.
Qed.

(** A pending callback whose commit can succeed runs exactly once when
    the elapsed time reaches its delay, whatever questions arrive in the
    meantime: the answer it closes over is upserted into the answers it
    closes over, and the quiz moves on by one question, or completes when
    the render it closes over was on its last question. *)
Lemma run_fires evs c t q q' :
  autoAdvanceTimerRef c = Some t →
  currentQuestion (view c) = Some q →
  currentQuestion (timerEnv t) = Some q' →
  forallb isPassive evs = true →
  (0 < remaining t ≤ elapsed evs)%N →
  let env := timerEnv t in
  let final :=
    upsert (answerObject q' (timerValue t) (isImportant env) (comment env)) (answers env) in
  answers (view (run evs c)) = final ∧
  if (Z.of_nat (currentIndex env) <? Z.of_nat (length (questions env)) - 1)%Z
  then currentIndex (view (run evs c)) = currentIndex (view c) + 1 ∧
       onCompleteCalls (run evs c) = onCompleteCalls c
  else currentIndex (view (run evs c)) = currentIndex (view c) ∧
       onCompleteCalls (run evs c) = onCompleteCalls c ++ [final].
Proof.
  revert c t. induction evs as [|e evs IH]; intros c t Hpending Hq Hq' Hevs Hdue env final.
  { simpl in Hdue. lia. }
  simpl in Hevs. apply andb_prop in Hevs as [He Hevs].
  rewrite run_cons. destruct e as [| | | | | | |d|validNew]; try discriminate He.
  - simpl. unfold elapse. rewrite Hpending.
    destruct (N.leb_spec (remaining t) d) as [Hfire|Hwait].
    + subst env final.
      destruct (goToNext_saved (timerEnv t) (timerValue t) (clearTimeout c) q' Hq')
        as (_ & Hanswers & Hdone & Hmove).
      destruct (run_idle evs _ Hevs Hdone) as (Hi & Ha & Hc).
      rewrite Ha, Hi, Hc. split; [exact Hanswers | exact Hmove].
    + apply (IH (setTimeout (mkTimer (remaining t - d) (timerValue t) (timerEnv t)) c)
               (mkTimer (remaining t - d) (timerValue t) (timerEnv t)));
        [done | done | done | done |].
      simpl in Hdue |- *. lia.
  - simpl.
    destruct (questionsArrived_shown validNew c q Hq) as [Heq Hshown].
    rewrite Heq in Hshown |- *.
    apply (IH (update (λ r, withQuestions (questions r ++ validNew) r) c) t);
      [done | done | done | done |].
    simpl in Hdue. lia.
Qed.

End Capture.

(** ** The grace timer *)

Section Grace.
Import Quiz.
Implicit Types (c : Component).

(** With the comment box open and no callback pending, selecting,
    pausing, toggling, typing, waiting and new questions neither commit
    nor advance, and leave the box open and the timer off. *)
Lemma step_commenting e c q :
  keepsCommentOpen e = true →
  isNuancing (view c) = true → autoAdvanceTimerRef c = None →
  currentQuestion (view c) = Some q →
  let c' := step e c in
  isNuancing (view c') = true ∧ autoAdvanceTimerRef c' = None ∧
  currentQuestion (view c') = Some q ∧
  currentIndex (view c') = currentIndex (view c) ∧
  answers (view c') = answers (view c) ∧
  onCompleteCalls c' = onCompleteCalls c.
Proof.
  intros He Hopen Hidle Hq. destruct e; try discriminate He; simpl.
  - unfold handleSelection. rewrite Hopen. done.
  - done.
  - done.
  - done.
  - unfold elapse. rewrite Hidle. done.
  - destruct (questionsArrived_shown validNew c q Hq) as [Heq Hshown].
    rewrite Heq in Hshown |- *. done.
Qed.

Lemma run_commenting evs c q :
  forallb keepsCommentOpen evs = true →
  isNuancing (view c) = true → autoAdvanceTimerRef c = None →
  currentQuestion (view c) = Some q →
  let c' := run evs c in
  currentIndex (view c') = currentIndex (view c) ∧
  answers (view c') = answers (view c) ∧
  onCompleteCalls c' = onCompleteCalls c.
Proof.
  revert c. induction evs as [|e evs IH]; intros c Hevs Hopen Hidle Hq; [done |].
  simpl in Hevs. apply andb_prop in Hevs as [He Hevs].
  destruct (step_commenting e c q He Hopen Hidle Hq) as (Hopen' & Hidle' & Hq' & Hi & Ha & Hc).
  rewrite run_cons. destruct (IH (step e c) Hevs Hopen' Hidle' Hq') as (Hi' & Ha' & Hc').
  simpl. by rewrite Hi', Ha', Hc'.
Qed.

(** Selecting with the comment box closed schedules the callback for
    the full delay, closing over the render of the click. *)
Lemma handleSelection_schedules value c :
  isNuancing (view c) = false →
  handleSelection value c =
    mkComponent (setIsAutoAdvancing true (setSelectedValue (Some value) (view c)))
      (Some (mkTimer AUTO_ADVANCE_DELAY value (view c)))
      (onCompleteCalls c).
Proof. intros Hclosed. unfold handleSelection. by rewrite Hclosed. Qed.

(** Selecting commits nothing by itself. *)
Lemma handleSelection_frame value c :
  let c' := handleSelection value c in
  questions (view c') = questions (view c) ∧
  currentIndex (view c') = currentIndex (view c) ∧
  answers (view c') = answers (view c) ∧
  onCompleteCalls c' = onCompleteCalls c.
Proof. unfold handleSelection. by destruct (isNuancing (view c)). Qed.

End Grace.

(** While the comment box is open the grace timer is suppressed: after
    a pause, selecting another value and waiting for the full delay, and
    ten minutes more, commits nothing and advances nowhere. *)
Example selection_while_commenting_starts_no_countdown :
  let c := Quiz.run [Quiz.Select 3; Quiz.Pause]
             (Quiz.mount Scenario.foreground (Some App.TARGET_QUESTIONS)) in
  let c' := Quiz.run [Quiz.Select 4; Quiz.Elapse Quiz.AUTO_ADVANCE_DELAY; Quiz.Elapse 600000] c in
  Quiz.isNuancing (Quiz.view c) = true ∧
  Quiz.selectedValue (Quiz.view c') = Some 4%Z ∧
  Quiz.currentIndex (Quiz.view c') = 0 ∧
  Quiz.answers (Quiz.view c') = [] ∧
  Quiz.onCompleteCalls c' = [].
Proof. split_and!; vm_compute; reflexivity. Qed.

(** The grace timer on a question shown with the comment box closed
    (not nuancing, the state in which the timer is not suppressed).
    Selecting a value V and then pausing before the grace delay of 5.5s
    is over keeps V selected, opens the comment box, and no later
    selecting, pausing, toggling, typing or waiting commits or advances.
    Selecting V and doing nothing until the delay is over, and however
    long after, commits exactly once: the answer with the id of the
    question, the value V, the importance flag and the comment of the
    moment of the click is upserted.  When the question was not the last
    one of the list at the moment of the click, the index moves on by one,
    exactly, and [onComplete] is not called.  When it was the last one,
    the index stays and [onComplete] is called once with the committed
    answers; the callback reads the list of the render of the click, so
    this is so also when more questions arrived during the countdown (see
    [countdown_ignores_questions_arrived_meanwhile] below). *)
Lemma grace_timer (c : Quiz.Component) (q : Types.Question) (V : Z) :
  Quiz.isNuancing (Quiz.view c) = false →
  Quiz.currentQuestion (Quiz.view c) = Some q →
  Quiz.AUTO_ADVANCE_DELAY = 5500%N ∧
  (∀ waits evs,
     forallb Quiz.isPassive waits = true →
     (Quiz.elapsed waits < Quiz.AUTO_ADVANCE_DELAY)%N →
     forallb Quiz.keepsCommentOpen evs = true →
     let paused := Quiz.run (Quiz.Select V :: waits ++ [Quiz.Pause]) c in
     let c' := Quiz.run evs paused in
     Quiz.selectedValue (Quiz.view paused) = Some V ∧
     Quiz.isNuancing (Quiz.view paused) = true ∧
     Quiz.currentIndex (Quiz.view c') = Quiz.currentIndex (Quiz.view c) ∧
     Quiz.answers (Quiz.view c') = Quiz.answers (Quiz.view c) ∧
     Quiz.onCompleteCalls c' = Quiz.onCompleteCalls c) ∧
  (∀ evs,
     forallb Quiz.isPassive evs = true →
     (Quiz.AUTO_ADVANCE_DELAY ≤ Quiz.elapsed evs)%N →
     let c' := Quiz.run (Quiz.Select V :: evs) c in
     let final :=
       Quiz.upsert
         (Types.mkAnswer (Types.id q) V (Quiz.isImportant (Quiz.view c))
            (if decide (Quiz.trim (Quiz.comment (Quiz.view c)) = "") then None
             else Some (Quiz.comment (Quiz.view c))))
         (Quiz.answers (Quiz.view c)) in
     Quiz.answers (Quiz.view c') = final ∧
     if (Z.of_nat (Quiz.currentIndex (Quiz.view c)) <?
         Z.of_nat (length (Quiz.questions (Quiz.view c))) - 1)%Z
     then Quiz.currentIndex (Quiz.view c') = Quiz.currentIndex (Quiz.view c) + 1 ∧
          Quiz.onCompleteCalls c' = Quiz.onCompleteCalls c
     else Quiz.currentIndex (Quiz.view c') = Quiz.currentIndex (Quiz.view c) ∧
          Quiz.onCompleteCalls c' = Quiz.onCompleteCalls c ++ [final]).
Proof.
  intros Hclosed Hq.
  pose proof (handleSelection_schedules V c Hclosed) as Hselect.
  assert (Quiz.currentQuestion (Quiz.view (Quiz.handleSelection V c)) = Some q) as Hq1.
  { by rewrite Hselect. }
  split_and!; [reflexivity | |].
  - intros waits evs Hwaits Hnotdue Hevs paused c'.
    destruct (run_waiting waits (Quiz.handleSelection V c)
                (Quiz.mkTimer Quiz.AUTO_ADVANCE_DELAY V (Quiz.view c)) q)
      as [arrivedQs Hwaited]; [by rewrite Hselect | done | done | done |].
    assert (paused = Quiz.stopAutoAdvance (Quiz.run waits (Quiz.handleSelection V c)))
      as Hpaused.
    { subst paused. by rewrite run_cons, run_app. }
    rewrite Hwaited, Hselect in Hpaused.
    assert (Quiz.currentQuestion (Quiz.view paused) = Some q) as Hq2.
    { rewrite Hpaused. unfold Quiz.currentQuestion in *. simpl.
      by apply lookup_app_l_Some. }
    destruct (run_commenting evs paused q Hevs) as (Hi & Ha & Hc);
      [by rewrite Hpaused | by rewrite Hpaused | done |].
    subst c'. rewrite Hi, Ha, Hc, Hpaused. done.
  - intros evs Hevs Hdue c' final.
    destruct (handleSelection_frame V c) as (_ & Hi & _ & Hc).
    pose proof (run_fires evs (Quiz.handleSelection V c)
                  (Quiz.mkTimer Quiz.AUTO_ADVANCE_DELAY V (Quiz.view c)) q q) as Hfires.
    simpl in Hfires. rewrite Hi, Hc in Hfires.
    apply Hfires; [by rewrite Hselect | done | done | done |].
    unfold Quiz.AUTO_ADVANCE_DELAY in Hdue |- *. lia.
Qed.

(** On the first of five questions: V = 4, paused after 3s, then a
    minute of waiting; and V = 4 left alone for 2s + 3.5s while the batch
    for ids 6 and 7 arrives. *)
Example grace_timer_first_question :
  let c := Quiz.mount Scenario.foreground (Some App.TARGET_QUESTIONS) in
  let paused := Quiz.run [Quiz.Select 4; Quiz.Elapse 3000; Quiz.Pause; Quiz.Elapse 60000] c in
  let waited :=
    Quiz.run [Quiz.Select 4; Quiz.Elapse 2000;
              Quiz.QuestionsArrived (Scenario.question <$> [6; 7]%Z); Quiz.Elapse 3500;
              Quiz.Elapse 60000] c in
  Quiz.currentIndex (Quiz.view paused) = 0 ∧
  Quiz.selectedValue (Quiz.view paused) = Some 4%Z ∧
  Quiz.answers (Quiz.view paused) = [] ∧
  Quiz.currentIndex (Quiz.view waited) = 1 ∧
  Quiz.answers (Quiz.view waited) = [Types.mkAnswer 1 4 false None] ∧
  Quiz.onCompleteCalls waited = [].
Proof. split_and!; vm_compute; reflexivity. Qed.

(** C2 fails on the code at one kind of input, by a slip of the code
    (elsewhere the grace timer does what C2 says, see [grace_timer]): the
    countdown runs on the last question that has arrived, and the next
    batch arrives before it is over.  With ids 1 to 5 there and four of
    them answered, the user selects 4 on the fifth question; after 2s the
    batch with ids 6 and 7 arrives, so the page now holds seven questions.
    When the delay is over, the callback, which closes over the render of
    the click and its five questions, commits the answer with value 4 but
    does not advance: the index stays at the fifth question and
    [onComplete] ends the quiz with five answers, which the application
    takes to ANALYZING.  Pressing Next at that moment instead, which runs
    the [goToNext] of the current render, commits the same answers and
    advances to question 6; so does the callback when the batch arrives
    before the click.  Without the arriving batch both paths end the
    quiz. *)
Theorem countdown_ignores_questions_arrived_meanwhile :
  let fifth :=
    Quiz.run [Quiz.Select 3; Quiz.Next; Quiz.Select 3; Quiz.Next;
              Quiz.Select 3; Quiz.Next; Quiz.Select 3; Quiz.Next]
      (Quiz.mount Scenario.foreground (Some App.TARGET_QUESTIONS)) in
  let batch := Quiz.QuestionsArrived (Scenario.question <$> [6; 7]%Z) in
  let counting := Quiz.run [Quiz.Select 4; Quiz.Elapse 2000; batch] fifth in
  let byTimer := Quiz.run [Quiz.Elapse 3500] counting in
  let byNext := Quiz.run [Quiz.Next] counting in
  let arrivedFirst := Quiz.run [batch; Quiz.Select 4; Quiz.Elapse 5500] fifth in
  let noBatch := Quiz.run [Quiz.Select 4; Quiz.Elapse 5500] fifth in
  let five :=
    [Types.mkAnswer 1 3 false None; Types.mkAnswer 2 3 false None;
     Types.mkAnswer 3 3 false None; Types.mkAnswer 4 3 false None;
     Types.mkAnswer 5 4 false None] in
  let app :=
    (App.backgroundSettled 1700000003000 (Scenario.inFlightTask 1700000000000)
       (GeminiService.Fulfilled (Scenario.question <$> [6; 7]%Z))
       (Scenario.started 1700000000000).1).1 in
  (Quiz.currentIndex (Quiz.view counting) = 4 ∧
   (Types.id <$> Quiz.questions (Quiz.view counting)) = [1; 2; 3; 4; 5; 6; 7]%Z ∧
   Quiz.isNuancing (Quiz.view counting) = false ∧
   (Quiz.remaining <$> Quiz.autoAdvanceTimerRef counting) = Some 3500%N) ∧
  (Quiz.answers (Quiz.view byTimer) = five ∧
   Quiz.currentIndex (Quiz.view byTimer) = 4 ∧
   Quiz.onCompleteCalls byTimer = [five] ∧
   (Types.id <$> App.questions app) = [1; 2; 3; 4; 5; 6; 7]%Z ∧
   App.state app = Types.QUIZ ∧
   App.state (App.handleQuizComplete 1700000030000 five app) = Types.ANALYZING) ∧
  (Quiz.answers (Quiz.view byNext) = five ∧
   Quiz.currentIndex (Quiz.view byNext) = 5 ∧
   (Types.id <$> Quiz.currentQuestion (Quiz.view byNext)) = Some 6%Z ∧
   Quiz.onCompleteCalls byNext = []) ∧
  (Quiz.answers (Quiz.view arrivedFirst) = five ∧
   Quiz.currentIndex (Quiz.view arrivedFirst) = 5 ∧
   Quiz.onCompleteCalls arrivedFirst = []) ∧
  (Quiz.currentIndex (Quiz.view noBatch) = 4 ∧
   Quiz.onCompleteCalls noBatch = [five]).
Proof. split_and!; vm_compute; reflexivity. Qed.

(** ** Navigating back *)

Section Back.
Import Quiz.
Implicit Types (c : Component) (r env : Render) (o : option Types.Answer).

Lemma before_ext i qid o r r' :
  currentIndex r' = currentIndex r → answers r' = answers r → questions r' = questions r →
  before i qid o r → before i qid o r'.
Proof. unfold before. by intros -> -> ->. Qed.

Lemma answerFor_cons qid a l :
  answerFor qid (a :: l) =
    if decide (Types.questionId a = qid) then Some a else answerFor qid l.
Proof.
  unfold answerFor. cbn [list_find]. destruct (decide _); [done |].
  by destruct (list_find _ l) as [[??]|].
Qed.

(** Upserting an answer for another id does not change what is stored
    for [qid]. *)
Lemma answerFor_upsert_other qid b l :
  Types.questionId b ≠ qid → answerFor qid (upsert b l) = answerFor qid l.
Proof.
  intros Hother. induction l as [|a l IH].
  - rewrite upsert_nil, answerFor_cons. by rewrite decide_False.
  - rewrite upsert_cons. destruct (decide (Types.questionId a = _)) as [Heq|Hne].
    + rewrite !answerFor_cons, !decide_False by congruence. done.
    + rewrite !answerFor_cons, IH. done.
Qed.

(** The first entry with the id of [a] is [a] itself once [a] is
    upserted. *)
Lemma answerFor_upsert_same (a : Types.Answer) (l : list Types.Answer) :
  answerFor (Types.questionId a) (upsert a l) = Some a.
Proof.
  induction l as [|b l IH].
  - rewrite upsert_nil, answerFor_cons. by rewrite decide_True.
  - rewrite upsert_cons. destruct (decide (Types.questionId b = _)) as [Heq|Hne].
    + rewrite answerFor_cons. by rewrite decide_True.
    + rewrite answerFor_cons, decide_False by done. exact IH.
Qed.

(** An id that has a stored answer keeps one. *)
Lemma answerFor_upsert_is_Some qid b l :
  is_Some (answerFor qid l) → is_Some (answerFor qid (upsert b l)).
Proof.
  intros Hstored. destruct (decide (Types.questionId b = qid)) as [<-|Hother].
  - by rewrite answerFor_upsert_same.
  - by rewrite answerFor_upsert_other.
Qed.

Lemma caughtUp_resetEffect c :
  (∀ j, j < currentIndex (view c) →
     ∃ q, questions (view c) !! j = Some q ∧
          is_Some (answerFor (Types.id q) (answers (view c)))) →
  caughtUp (resetEffect c).
Proof.
  intros Hc. split.
  - by rewrite resetEffect_index, resetEffect_questions, resetEffect_answers.
  - by rewrite resetEffect_timer.
Qed.

Lemma goToNext_caughtUp env value c :
  caughtUp c →
  currentQuestion env = currentQuestion (view c) →
  currentIndex env = currentIndex (view c) →
  answers env = answers (view c) →
  autoAdvanceTimerRef c = None ∨ (∃ t, autoAdvanceTimerRef c = Some t) →
  caughtUp (goToNext env value c).
Proof.
  intros [Hbefore Htimer] Hq Hi Ha _. unfold goToNext, saveAnswer.
  destruct (currentQuestion env) as [q|] eqn:Hcurrent; [| by split].
  set (final := upsert _ _).
  assert (∀ j, j < currentIndex (view c) →
            ∃ q', questions (view c) !! j = Some q' ∧
                  is_Some (answerFor (Types.id q') final)) as Hkept.
  { intros j Hj. destruct (Hbefore j Hj) as (q' & Hlook & Hstored).
    exists q'. split; [done |]. subst final. rewrite Ha.
    by apply answerFor_upsert_is_Some. }
  destruct (_ <? _)%Z; [| destruct (_ <? _)%nat].
  - apply caughtUp_resetEffect. simpl. intros j Hj.
    destruct (decide (j = currentIndex (view c))) as [->|Hne].
    + exists q. split; [symmetry; exact Hq |].
      subst final. by rewrite (answerFor_upsert_same (answerObject q _ _ _)).
    + apply Hkept. lia.
  - by apply caughtUp_resetEffect.
  - by apply caughtUp_resetEffect.
Qed.

(** Whatever happens to a quiz, every question before the current one
    has a stored answer. *)
Lemma step_caughtUp e c : caughtUp c → caughtUp (step e c).
Proof.
  intros Hc. pose proof Hc as [Hbefore Htimer].
  destruct e as [v| | | |s| | |d|validNew]; simpl.
  - unfold handleSelection. destruct (isNuancing (view c)); [done |].
    split; [done |]. simpl. by intros t [= <-].
  - by split.
  - done.
  - done.
  - done.
  - unfold handleNextClick. destruct (selectedValue (view c)) as [v|]; [| done].
    apply goToNext_caughtUp; [done.. |].
    destruct (autoAdvanceTimerRef c); [right; by eexists | by left].
  - unfold handleBack. simpl. destruct (0 <? currentIndex (view c)) eqn:Hpos.
    + apply caughtUp_resetEffect. simpl. intros j Hj. apply Hbefore. lia.
    + by split.
  - unfold elapse. destruct (autoAdvanceTimerRef c) as [t|] eqn:Hpending; [| done].
    destruct (Htimer t eq_refl) as (Hq & Hi & Ha).
    destruct (remaining t <=? d)%N.
    + apply goToNext_caughtUp; [by split | done | done | done | by left].
    + split; [done |]. simpl. by intros ? [= <-].
  - unfold questionsArrived. set (c' := update _ c).
    assert (∀ j, j < currentIndex (view c') →
              ∃ q, questions (view c') !! j = Some q ∧
                   is_Some (answerFor (Types.id q) (answers (view c')))) as Hbefore'.
    { intros j Hj. destruct (Hbefore j Hj) as (q & Hlook & Hstored).
      exists q. split; [| done]. by apply lookup_app_l_Some. }
    destruct (decide _) as [Hsame|]; [| by apply caughtUp_resetEffect].
    split; [done |]. intros t Ht. destruct (Htimer t Ht) as (Hq & Hi & Ha).
    split_and!; [| done | done]. by rewrite Hsame.
Qed.

Lemma run_caughtUp evs c : caughtUp c → caughtUp (run evs c).
Proof.
  revert c. induction evs as [|e evs IH]; intros c Hc; [done |].
  rewrite run_cons. by apply IH, step_caughtUp.
Qed.

Lemma mount_caughtUp qs total : caughtUp (mount qs total).
Proof. unfold mount. apply caughtUp_resetEffect. simpl. intros j Hj. lia. Qed.

(** The question list only grows, at its end. *)
Lemma goToNext_questions env value c :
  questions (view (goToNext env value c)) = questions (view c).
Proof.
  unfold goToNext, saveAnswer. destruct (currentQuestion env); [| done].
  destruct (_ <? _)%Z; [| destruct (_ <? _)%nat]; by rewrite resetEffect_questions.
Qed.

Lemma step_questions e c :
  questions (view c) `prefix_of` questions (view (step e c)).
Proof.
  destruct e as [v| | | |s| | |d|validNew]; simpl; try done.
  - unfold handleSelection. by destruct (isNuancing (view c)).
  - unfold handleNextClick. destruct (selectedValue (view c)); [| done].
    by rewrite goToNext_questions.
  - unfold handleBack. simpl. destruct (0 <? _); [| done].
    by rewrite resetEffect_questions.
  - unfold elapse. destruct (autoAdvanceTimerRef c) as [t|]; [| done].
    destruct (_ <=? _)%N; [| done]. by rewrite goToNext_questions.
  - unfold questionsArrived. destruct (decide _); rewrite ?resetEffect_questions;
      by apply prefix_app_r.
Qed.

Lemma run_questions evs c :
  questions (view c) `prefix_of` questions (view (run evs c)).
Proof.
  revert c. induction evs as [|e evs IH]; intros c; [done |].
  rewrite run_cons. etrans; [apply (step_questions e) | apply IH].
Qed.

(** The events that edit the capture state commit nothing and move
    nowhere. *)
Lemma step_edit e c :
  isEdit e = true →
  questions (view (step e c)) = questions (view c) ∧
  currentIndex (view (step e c)) = currentIndex (view c) ∧
  answers (view (step e c)) = answers (view c) ∧
  onCompleteCalls (step e c) = onCompleteCalls c.
Proof.
  intros He. destruct e; try discriminate He; simpl; try done.
  apply handleSelection_frame.
Qed.

Lemma run_edits edits c :
  forallb isEdit edits = true →
  questions (view (run edits c)) = questions (view c) ∧
  currentIndex (view (run edits c)) = currentIndex (view c) ∧
  answers (view (run edits c)) = answers (view c) ∧
  onCompleteCalls (run edits c) = onCompleteCalls c.
Proof.
  revert c. induction edits as [|e edits IH]; intros c Hedits; [done |].
  simpl in Hedits. apply andb_prop in Hedits as [He Hedits].
  rewrite run_cons. destruct (IH (step e c) Hedits) as (-> & -> & -> & ->).
  by apply step_edit.
Qed.

(** [handleBack] on a question that is not the first: the callback is
    revoked, the answers are untouched, the previous question is shown. *)
Lemma handleBack_frame c :
  0 < currentIndex (view c) →
  questions (view (handleBack c)) = questions (view c) ∧
  currentIndex (view (handleBack c)) = currentIndex (view c) - 1 ∧
  answers (view (handleBack c)) = answers (view c) ∧
  onCompleteCalls (handleBack c) = onCompleteCalls c ∧
  autoAdvanceTimerRef (handleBack c) = None.
Proof.
  intros Hpos. unfold handleBack. simpl.
  destruct (Nat.ltb_spec 0 (currentIndex (view c))); [| lia].
  by rewrite resetEffect_questions, resetEffect_index, resetEffect_answers,
    resetEffect_calls, resetEffect_timer.
Qed.

Section Away.
Context (i : nat) (qid : Z) (o : option Types.Answer).

(** A commit made away from question [i] leaves what is stored for it
    as it is, and either stays away or arrives on it showing what is
    stored. *)
Lemma goToNext_away env value c :
  before i qid o env → away i qid o c →
  away i qid o (goToNext env value c) ∨ arrived i qid o (goToNext env value c).
Proof.
  intros (Henv_i & Henv_a & Henv_q) Haway.
  destruct Haway as ((Hi & Ha & Hq) & (q & Hqi & Hqid) & Htimer).
  unfold goToNext, saveAnswer.
  destruct (currentQuestion env) as [q'|] eqn:Hq'.
  2: { left. by split_and!; [split_and! | exists q |]. }
  set (final := upsert _ _).
  assert (answerFor qid final = o) as Hfinal.
  { subst final. rewrite answerFor_upsert_other; [done |].
    simpl. by apply (Henv_q (currentIndex env)). }
  destruct (_ <? _)%Z.
  - set (c1 := update _ (update _ c)).
    assert (currentIndex (view c1) = currentIndex (view c) + 1) as Hc1 by done.
    destruct (decide (currentIndex (view c) + 1 = i)) as [Harrive|Hnot].
    + right. unfold arrived.
      rewrite resetEffect_index, resetEffect_answers, Hc1.
      split_and!; [done | | done].
      rewrite <- Hfinal, <- Hqid. apply (resetEffect_shows c1 q).
      unfold currentQuestion. by rewrite Hc1, Harrive.
    + left. unfold away, before.
      rewrite resetEffect_index, resetEffect_answers, resetEffect_questions,
        resetEffect_timer, Hc1.
      split_and!; [lia | done | done | by exists q | done].
  - assert (away i qid o (resetEffect (onComplete final (update (setAnswers final) c)))).
    { unfold away, before.
      rewrite resetEffect_index, resetEffect_answers, resetEffect_questions,
        resetEffect_timer.
      by split_and!; [| | | exists q |]. }
    left. by destruct (_ <? _)%nat.
Qed.

Lemma step_away e c :
  away i qid o c → away i qid o (step e c) ∨ arrived i qid o (step e c).
Proof.
  intros Haway. pose proof Haway as (Hbefore & (q & Hqi & Hqid) & Htimer).
  destruct e as [v| | | |s| | |d|validNew]; simpl.
  - left. unfold handleSelection. destruct (isNuancing (view c)).
    + split_and!; [by eapply before_ext | by exists q | done].
    + split_and!; [by eapply before_ext | by exists q |].
      simpl. by intros t [= <-].
  - left. split_and!; [by eapply before_ext | by exists q | done].
  - left. split_and!; [by eapply before_ext | by exists q | done].
  - left. split_and!; [by eapply before_ext | by exists q | done].
  - left. split_and!; [by eapply before_ext | by exists q | done].
  - unfold handleNextClick. destruct (selectedValue (view c)); [| by left].
    by apply goToNext_away.
  - left. unfold handleBack. simpl.
    destruct (0 <? currentIndex (view c)) eqn:Hpos.
    + destruct Hbefore as (Hi & Ha & Hq).
      unfold away, before.
      rewrite resetEffect_index, resetEffect_answers, resetEffect_questions,
        resetEffect_timer. simpl.
      split_and!; [lia | done | done | by exists q | done].
    + split_and!; [done | by exists q | done].
  - unfold elapse. destruct (autoAdvanceTimerRef c) as [t|] eqn:Hpending; [| by left].
    destruct (remaining t <=? d)%N.
    + apply goToNext_away; [by apply (Htimer t) |].
      split_and!; [done | by exists q | done].
    + left. split_and!; [done | by exists q |].
      simpl. intros ? [= <-]. simpl. by apply (Htimer t).
  - left. unfold questionsArrived.
    set (c' := update _ c).
    assert (away i qid o c') as Haway'.
    { destruct Hbefore as (Hi & Ha & Hq). unfold away, before. simpl. split_and!.
      - done.
      - done.
      - intros j q' Hj Hlook. apply (Hq j q' Hj).
        rewrite lookup_app_l in Hlook; [done |].
        apply lookup_lt_Some in Hqi. lia.
      - exists q. split; [| done]. by apply lookup_app_l_Some.
      - done. }
    destruct (decide _); [done |].
    destruct Haway' as ((Hi & Ha & Hq) & Hex & _).
    unfold away, before.
    by rewrite resetEffect_index, resetEffect_answers, resetEffect_questions,
      resetEffect_timer.
Qed.

Lemma away_not_there c : away i qid o c → currentIndex (view c) ≠ i.
Proof. intros ((Hi & _) & _). lia. Qed.

Lemma run_away evs c :
  away i qid o c → staysBefore i evs c → away i qid o (run evs c).
Proof.
  revert c. induction evs as [|e evs IH]; intros c Haway Hstays; [done |].
  destruct Hstays as [Hnot Hstays]. rewrite run_cons. apply IH; [| done].
  destruct (step_away e c Haway) as [|(Hthere & _)]; done.
Qed.

End Away.

End Back.

(** Back on a question that is not the first one, after any edits of
    the capture state: nothing is stored, the previous question is shown
    and the pending callback is revoked.  And however the user goes on
    from there, the first time the question is shown again nothing of the
    edits is left: what is stored for it is what was stored before, and
    the capture state shows just that.  (No question before it bears its
    id.) *)
Lemma back_then_revisit
    (c : Quiz.Component) (q : Types.Question) (edits : list Quiz.Event) :
  0 < Quiz.currentIndex (Quiz.view c) →
  Quiz.currentQuestion (Quiz.view c) = Some q →
  (∀ j q', j < Quiz.currentIndex (Quiz.view c) →
     Quiz.questions (Quiz.view c) !! j = Some q' → Types.id q' ≠ Types.id q) →
  forallb Quiz.isEdit edits = true →
  let i := Quiz.currentIndex (Quiz.view c) in
  let stored := Quiz.answerFor (Types.id q) (Quiz.answers (Quiz.view c)) in
  let left := Quiz.run (edits ++ [Quiz.Back]) c in
  Quiz.answers (Quiz.view left) = Quiz.answers (Quiz.view c) ∧
  Quiz.currentIndex (Quiz.view left) = i - 1 ∧
  Quiz.autoAdvanceTimerRef left = None ∧
  ∀ evs e,
    Quiz.staysBefore i evs left →
    Quiz.currentIndex (Quiz.view (Quiz.step e (Quiz.run evs left))) = i →
    let r := Quiz.view (Quiz.step e (Quiz.run evs left)) in
    Quiz.answerFor (Types.id q) (Quiz.answers r) = stored ∧
    Quiz.shows stored r.
Proof.
  intros Hpos Hq Hids Hedits i stored left.
  destruct (run_edits edits c Hedits) as (Hqs & Hi & Ha & _).
  assert (left = Quiz.handleBack (Quiz.run edits c)) as Hleft.
  { subst left. by rewrite run_app. }
  destruct (handleBack_frame (Quiz.run edits c)) as (Hqs' & Hi' & Ha' & _ & Hidle).
  { by rewrite Hi. }
  rewrite <- Hleft, ?Hqs, ?Hi, ?Ha in *. fold i in Hi'.
  split_and!; [done | done | done |].
  assert (Quiz.away i (Types.id q) stored left) as Haway.
  { unfold Quiz.away, Quiz.before. rewrite Hqs', Hi', Ha', Hidle.
    split_and!; [subst i; lia | done | done | by exists q | done]. }
  intros evs e Hstays Hthere r.
  pose proof (run_away i (Types.id q) stored evs left Haway Hstays) as Haway'.
  destruct (step_away i (Types.id q) stored e _ Haway') as [Hstill|Harrived].
  - by apply away_not_there in Hstill.
  - by destruct Harrived as (_ & Hshows & Hans).
Qed.

(** A question answered on an earlier visit comes back with its stored
    answer: with the second question answered with 2 and shown again,
    selecting 5 and marking it important, pressing Back and coming back
    with Next leaves the stored answers untouched, and the question is
    shown with the stored value 2 selected. *)
Example revisit_shows_stored_answer :
  let c := Scenario.revisitingSecond in
  let c' := Quiz.run [Quiz.Select 5; Quiz.ToggleImportant; Quiz.Back; Quiz.Next] c in
  Quiz.currentIndex (Quiz.view c) = 1 ∧
  Quiz.currentIndex (Quiz.view c') = 1 ∧
  Quiz.answers (Quiz.view c') = Quiz.answers (Quiz.view c) ∧
  Quiz.selectedValue (Quiz.view c') = Some 2%Z.
Proof. split_and!; vm_compute; reflexivity. Qed.

(** C10: in every session of a quiz (any events since it was mounted),
    when no answer is stored for the current question q (no commit for q
    so far), after any edits of the capture state (selecting a value,
    toggling importance, typing a comment, also pausing the countdown and
    closing the comment box) pressing Back stores nothing: the answer list
    is the one from before, so no answer for q is added; the pending
    callback is revoked, so the selection is not committed later either;
    and the question before q is shown (on the first question, where the
    Back button is disabled, the handler leaves q on the page).  And once
    q has been left, however the user goes on from there, the first time
    q is shown again no answer is stored for it and the capture state is
    reset: no value selected, importance off, comment empty. *)
Theorem back_discards_uncommitted
    (qs : list Types.Question) (total : option nat)
    (session edits : list Quiz.Event) (q : Types.Question) :
  let c := Quiz.run session (Quiz.mount qs total) in
  Quiz.currentQuestion (Quiz.view c) = Some q →
  Quiz.answerFor (Types.id q) (Quiz.answers (Quiz.view c)) = None →
  forallb Quiz.isEdit edits = true →
  let i := Quiz.currentIndex (Quiz.view c) in
  let left := Quiz.run (edits ++ [Quiz.Back]) c in
  Quiz.answers (Quiz.view left) = Quiz.answers (Quiz.view c) ∧
  Quiz.answerFor (Types.id q) (Quiz.answers (Quiz.view left)) = None ∧
  Quiz.currentIndex (Quiz.view left) = i - 1 ∧
  Quiz.autoAdvanceTimerRef left = None ∧
  ∀ evs e,
    Quiz.currentIndex (Quiz.view left) ≠ i →
    Quiz.staysBefore i evs left →
    Quiz.currentIndex (Quiz.view (Quiz.step e (Quiz.run evs left))) = i →
    let r := Quiz.view (Quiz.step e (Quiz.run evs left)) in
    Quiz.currentQuestion r = Some q ∧
    Quiz.answerFor (Types.id q) (Quiz.answers r) = None ∧
    Quiz.selectedValue r = None ∧
    Quiz.isImportant r = false ∧
    Quiz.comment r = "".
Proof.
  intros c Hq Hnone Hedits i left.
  destruct (decide (Quiz.currentIndex (Quiz.view c) = 0)) as [Hfirst|Hlater].
  - destruct (run_edits edits c Hedits) as (_ & Hi & Ha & _).
    assert (left = Quiz.clearTimeout (Quiz.run edits c)) as Hleft.
    { subst left. rewrite run_app. simpl. unfold Quiz.handleBack. simpl.
      by rewrite Hi, Hfirst. }
    assert (Quiz.currentIndex (Quiz.view left) = i) as Hstayed.
    { rewrite Hleft. simpl. by rewrite Hi. }
    split_and!.
    + rewrite Hleft. simpl. by rewrite Ha.
    + rewrite Hleft. simpl. by rewrite Ha.
    + rewrite Hstayed. subst i. lia.
    + by rewrite Hleft.
    + intros evs e Hgone. by destruct Hgone.
  - assert (0 < Quiz.currentIndex (Quiz.view c)) as Hpos by lia.
    destruct (run_caughtUp session _ (mount_caughtUp qs total)) as [Hbefore _].
    fold c in Hbefore.
    destruct (back_then_revisit c q edits Hpos Hq) as (Ha & Hi & Hidle & Hrevisit);
      [| done |].
    { intros j q' Hj Hlook Hsame. destruct (Hbefore j Hj) as (q'' & Hlook' & Hstored).
      rewrite Hlook in Hlook'. injection Hlook' as <-.
      rewrite Hsame, Hnone in Hstored. by destruct Hstored. }
    fold left in Ha, Hi, Hidle, Hrevisit. fold i in Hi, Hrevisit.
    split_and!; [done | by rewrite Ha | done | done |].
    intros evs e _ Hstays Hthere r.
    destruct (Hrevisit evs e Hstays Hthere) as (Hstored & Hsel & Himp & Hcom).
    fold r in Hstored, Hsel, Himp, Hcom. rewrite Hnone in Hstored, Hsel, Himp, Hcom.
    split_and!; [| done..].
    assert (Quiz.questions (Quiz.view c) `prefix_of` Quiz.questions r) as Hgrown.
    { subst r left. etrans; [| apply (step_questions e)].
      etrans; [| apply run_questions]. apply run_questions. }
    unfold Quiz.currentQuestion in Hq |- *. fold r in Hthere. rewrite Hthere.
    by apply (prefix_lookup_Some _ _ _ _ Hq).
Qed.

(** On the second of five questions, the first answered with 4: select
    5, mark important, press Back, then Next on the first question; the
    second question comes back with nothing selected. *)
Lemma back_discards_uncommitted_witness :
  let c := Quiz.run [Quiz.Select 4; Quiz.Next]
             (Quiz.mount Scenario.foreground (Some App.TARGET_QUESTIONS)) in
  let left := Quiz.run ([Quiz.Select 5; Quiz.ToggleImportant] ++ [Quiz.Back]) c in
  let r := Quiz.view (Quiz.step Quiz.Next (Quiz.run [] left)) in
  Quiz.answers (Quiz.view left) = Quiz.answers (Quiz.view c) ∧
  Quiz.selectedValue r = None ∧
  Quiz.isImportant r = false ∧
  Quiz.comment r = "".
Proof.
  intros c left r.
  destruct (back_discards_uncommitted Scenario.foreground (Some App.TARGET_QUESTIONS)
              [Quiz.Select 4; Quiz.Next] [Quiz.Select 5; Quiz.ToggleImportant]
              (Scenario.question 2))
    as (Hkept & _ & _ & _ & Hrevisit); [vm_compute; reflexivity.. |].
  split; [exact Hkept |].
  destruct (Hrevisit [] Quiz.Next) as (_ & _ & Hshown);
    [vm_compute; discriminate | exact I | vm_compute; reflexivity |].
  exact Hshown.
Defined.

(** ** Completing a truncated quiz *)

(** C5: when the request of a background batch is rejected (the retries
    of the call are spent, or the failure was not retried), the
    application state is left exactly as it was, in particular not in
    ERROR and with every question that had arrived, and the loop asks for
    no further batch.  On the last question that did arrive, committing
    a value calls [onComplete] once, with the collected answers (the
    stored ones with the answer to this question upserted), whatever the
    nominal target, and [handleQuizComplete] stores exactly these answers
    and goes to ANALYZING. *)
Theorem failed_batch_keeps_quiz_completable
    (t t' : Z) (task : App.BgTask) (hasApiKey : bool)
    (operation : nat → GeminiService.Settled (list Types.Question))
    (e : GeminiService.JsError) (a : App.App)
    (c : Quiz.Component) (q : Types.Question) (v : Z) :
  GeminiService.generateQuestions hasApiKey operation = GeminiService.Rejected e →
  Quiz.questions (Quiz.view c) = App.questions a →
  Quiz.currentQuestion (Quiz.view c) = Some q →
  Quiz.currentIndex (Quiz.view c) = length (App.questions a) - 1 →
  let final :=
    Quiz.upsert
      (Quiz.answerObject q v (Quiz.isImportant (Quiz.view c)) (Quiz.comment (Quiz.view c)))
      (Quiz.answers (Quiz.view c)) in
  App.backgroundSettled t task (GeminiService.generateQuestions hasApiKey operation) a
    = (a, None) ∧
  Quiz.onCompleteCalls (Quiz.goToNext (Quiz.view c) v c) = Quiz.onCompleteCalls c ++ [final] ∧
  Quiz.answers (Quiz.view (Quiz.goToNext (Quiz.view c) v c)) = final ∧
  App.answers (App.handleQuizComplete t' final a) = final ∧
  App.questions (App.handleQuizComplete t' final a) = App.questions a ∧
  App.state (App.handleQuizComplete t' final a) = Types.ANALYZING.
Proof.
  intros Hfailed Hqs Hq Hlast final.
  split_and!.
  - by rewrite Hfailed.
  - destruct (goToNext_saved (Quiz.view c) v c q Hq) as (_ & _ & _ & Hmove).
    rewrite Hqs, Hlast in Hmove.
    destruct (Z.ltb_spec (Z.of_nat (length (App.questions a) - 1))
                (Z.of_nat (length (App.questions a)) - 1)) as [Hlt|_]; [lia |].
    apply Hmove.
  - by destruct (goToNext_saved (Quiz.view c) v c q Hq) as (_ & Hfinal & _).
  - unfold App.handleQuizComplete. by rewrite saveEffect_answers.
  - unfold App.handleQuizComplete. by rewrite saveEffect_questions.
  - unfold App.handleQuizComplete. by rewrite saveEffect_state.
Qed.

(** The explicit "next" button commits the selected value the same way. *)
Lemma handleNextClick_selected (c : Quiz.Component) (v : Z) :
  Quiz.selectedValue (Quiz.view c) = Some v →
  Quiz.step Quiz.Next c = Quiz.goToNext (Quiz.view c) v c.
Proof. intros Hsel. simpl. unfold Quiz.handleNextClick. by rewrite Hsel. Qed.

(** The scenario of the spec: target 50, ids 1 to 5 arrived, the request
    for ids 6 to 20 meets a persistent rate limit; the user, on the fifth
    question with four answers stored, commits the fifth. *)
Lemma failed_batch_keeps_quiz_completable_witness :
  let a := (Scenario.started 1700000000000).1 in
  let c := Quiz.run (Scenario.answerAll 3 4)
             (Quiz.mount (App.questions a) (Some App.TARGET_QUESTIONS)) in
  App.backgroundSettled 1700000007000 (Scenario.inFlightTask 1700000000000)
    (GeminiService.generateQuestions true GeminiService.always429) a = (a, None) ∧
  App.state a = Types.QUIZ ∧
  length (App.questions a) = 5 ∧
  (Types.questionId <$> App.answers (App.handleQuizComplete 1700000030000
     (Quiz.answers (Quiz.view (Quiz.goToNext (Quiz.view c) 3 c))) a)) = [1; 2; 3; 4; 5]%Z.
Proof.
  intros a c.
  destruct (failed_batch_keeps_quiz_completable 1700000007000 1700000030000
              (Scenario.inFlightTask 1700000000000) true GeminiService.always429
              (GeminiService.mkError (Some "got status: 429 Too Many Requests"))
              a c (Scenario.question 5) 3)
    as (Hhalt & _ & Hfinal & Hstored & _); try (vm_compute; reflexivity).
  split_and!; [exact Hhalt | vm_compute; reflexivity | vm_compute; reflexivity |].
  rewrite Hfinal, Hstored. vm_compute. reflexivity.
Defined.

(** The whole scenario, run: five answers by grace timer, then the
    completion handler, while the failed batch has changed nothing. *)
Example five_answers_complete_the_quiz :
  let a := (Scenario.started 1700000000000).1 in
  let c := Quiz.run (Scenario.answerAll 3 5)
             (Quiz.mount (App.questions a) (Some App.TARGET_QUESTIONS)) in
  (Scenario.started 1700000000000).2 = Some (Scenario.inFlightTask 1700000000000) ∧
  (length <$> Quiz.onCompleteCalls c) = [5] ∧
  Quiz.currentIndex (Quiz.view c) = 4.
Proof. split_and!; vm_compute; reflexivity. Qed.

(** ** The answers of a mounted quiz *)

Section Stored.
Import Quiz.
Implicit Types (c : Component) (ks : list Commit).

Lemma handedOver_app ks ks' c : handedOver ks c → handedOver (ks ++ ks') c.
Proof.
  unfold handedOver. intros Hcalls. apply (Forall_impl _ _ _ Hcalls).
  intros l (ks1 & Hprefix & ->).
  exists ks1. split; [by apply prefix_app_r | done].
Qed.

(** [goToNext] with a current question saves its commit on top of the
    answers its render closes over, and hands the outcome to [onComplete]
    when it completes the quiz. *)
Lemma goToNext_savedBy ks env value c q :
  currentQuestion env = Some q →
  answers env = saveAll ks [] →
  handedOver ks c →
  let k := mkCommit q value (isImportant env) (comment env) in
  savedBy (ks ++ [k]) (goToNext env value c) ∧ handedOver (ks ++ [k]) (goToNext env value c).
Proof.
  intros Hq Henv Hcalls k.
  destruct (goToNext_saved env value c q Hq) as (_ & Ha & Hidle & Hmove).
  assert (answers (view (goToNext env value c)) = saveAll (ks ++ [k]) []) as Hsaved.
  { by rewrite Ha, saveAll_snoc, Henv. }
  split.
  - split; [done |]. by rewrite Hidle.
  - unfold handedOver. destruct (_ <? _)%Z.
    + destruct Hmove as [_ ->]. by apply handedOver_app.
    + destruct Hmove as [_ ->]. apply Forall_app. split; [by apply handedOver_app |].
      apply Forall_singleton. exists (ks ++ [k]). split; [done |].
      by rewrite <- Hsaved, Ha.
Qed.

(** One event: the answer list is the outcome of the commits so far
    with the commit of the event, if it makes one. *)
Lemma step_savedBy e ks c :
  savedBy ks c → handedOver ks c →
  savedBy (ks ++ option_list (commitOf e c)) (step e c) ∧
  handedOver (ks ++ option_list (commitOf e c)) (step e c).
Proof.
  intros [Hks Htimer] Hcalls.
  assert (savedBy (ks ++ []) c ∧ handedOver (ks ++ []) c) as Hsame.
  { rewrite app_nil_r. by split. }
  destruct e as [v| | | |s| | |d|validNew]; cbn [commitOf option_list step].
  - rewrite app_nil_r. split.
    2: { unfold handedOver. by destruct (handleSelection_frame v c) as (_ & _ & _ & ->). }
    unfold handleSelection. destruct (isNuancing (view c)).
    + by split.
    + split; [done |]. simpl. by intros t [= <-].
  - rewrite app_nil_r. by split.
  - rewrite app_nil_r. by split.
  - rewrite app_nil_r. by split.
  - rewrite app_nil_r. by split.
  - unfold handleNextClick. destruct (selectedValue (view c)) as [v|]; [| done].
    destruct (currentQuestion (view c)) as [q|] eqn:Hq.
    + by apply goToNext_savedBy.
    + unfold goToNext, saveAnswer. rewrite Hq. done.
  - rewrite app_nil_r. unfold handleBack. simpl. destruct (0 <? _).
    + split; [split |].
      * by rewrite resetEffect_answers.
      * by rewrite resetEffect_timer.
      * unfold handedOver. by rewrite resetEffect_calls.
    + by split.
  - unfold elapse. destruct (autoAdvanceTimerRef c) as [t|] eqn:Hpending.
    + destruct (remaining t <=? d)%N.
      * destruct (currentQuestion (timerEnv t)) as [q|] eqn:Hq.
        -- apply goToNext_savedBy; [done | by rewrite (Htimer t) | done].
        -- unfold goToNext, saveAnswer. rewrite Hq. simpl. rewrite app_nil_r.
           split; [by split | done].
      * simpl. rewrite app_nil_r. split; [| done].
        split; [done |]. simpl. intros ? [= <-]. by apply (Htimer t).
    + exact Hsame.
  - rewrite app_nil_r. unfold questionsArrived. destruct (decide _).
    + by split.
    + split; [split |].
      * by rewrite resetEffect_answers.
      * by rewrite resetEffect_timer.
      * unfold handedOver. by rewrite resetEffect_calls.
Qed.

Lemma run_savedBy evs ks c :
  savedBy ks c → handedOver ks c →
  savedBy (ks ++ commits evs c) (run evs c) ∧ handedOver (ks ++ commits evs c) (run evs c).
Proof.
  revert ks c. induction evs as [|e evs IH]; intros ks c Hks Hcalls.
  { simpl. rewrite app_nil_r. by split. }
  destruct (step_savedBy e ks c Hks Hcalls) as [Hks' Hcalls'].
  cbn [commits]. rewrite run_cons, app_assoc. by apply IH.
Qed.

(** Whatever happens to a mounted quiz, its answers are the outcome of
    its commits on the empty list. *)
Lemma mount_savedBy evs qs total :
  answers (view (run evs (mount qs total))) = saveAll (commits evs (mount qs total)) [] ∧
  handedOver (commits evs (mount qs total)) (run evs (mount qs total)).
Proof.
  destruct (run_savedBy evs [] (mount qs total)) as [[Hks _] Hcalls].
  - by split.
  - by apply Forall_nil.
  - done.
Qed.

(** After the commits [ks] on the empty list, the answers stored for an
    id are the answer of the most recent commit on it, alone. *)
Lemma saveAll_latest ks (qid : Z) :
  filter (λ a, Types.questionId a = qid) (saveAll ks []) =
    match last (filter (λ k, Types.id (commitQuestion k) = qid) ks) with
    | Some k =>
        [Types.mkAnswer qid (commitValue k) (commitImportant k)
           (if decide (trim (commitComment k) = "") then None else Some (commitComment k))]
    | None => []
    end.
Proof.
  induction ks as [|k ks IH] using rev_ind; [done |].
  rewrite saveAll_snoc, filter_app, filter_cons, filter_nil.
  destruct (decide (Types.id (commitQuestion k) = qid)) as [Hk|Hk].
  - rewrite last_snoc. subst qid.
    apply (upsert_filter_same (commitAnswer k)), saveAll_NoDup, NoDup_nil_2.
  - rewrite app_nil_r, <- IH. by apply upsert_filter_other.
Qed.

End Stored.

(** C3: in every session of a quiz (any events since it was mounted),
    the commits being the calls of [saveAnswer] made by Next and by
    callbacks that ran: for every question id, the answer list holds
    exactly one answer for the id when it was committed at all, and that
    answer has the value and the importance flag of the most recent
    commit on the id and, as its comment, the comment of that commit (no
    comment when it was empty or white space only); it holds none when the
    id was never committed.  So an earlier entry for the id is replaced,
    never kept beside the new one, and no two stored answers share a
    question id.  The same holds of every answer list handed to
    [onComplete], with the commits made until then, and
    [handleQuizComplete] makes that list the answer set of the session as
    it is. *)
Theorem saveAnswer_upserts
    (qs : list Types.Question) (total : option nat) (evs : list Quiz.Event) (qid : Z) :
  let c := Quiz.run evs (Quiz.mount qs total) in
  let latest (ks : list Quiz.Commit) :=
    match last (filter (λ k, Types.id (Quiz.commitQuestion k) = qid) ks) with
    | Some k =>
        [Types.mkAnswer qid (Quiz.commitValue k) (Quiz.commitImportant k)
           (if decide (Quiz.trim (Quiz.commitComment k) = "") then None
            else Some (Quiz.commitComment k))]
    | None => []
    end in
  filter (λ a, Types.questionId a = qid) (Quiz.answers (Quiz.view c)) =
    latest (Quiz.commits evs (Quiz.mount qs total)) ∧
  NoDup (Types.questionId <$> Quiz.answers (Quiz.view c)) ∧
  Forall (λ l,
      (∃ ks, ks `prefix_of` Quiz.commits evs (Quiz.mount qs total) ∧
             filter (λ a, Types.questionId a = qid) l = latest ks) ∧
      NoDup (Types.questionId <$> l) ∧
      ∀ t a, App.answers (App.handleQuizComplete t l a) = l)
    (Quiz.onCompleteCalls c).
Proof.
  intros c latest.
  destruct (mount_savedBy evs qs total) as [Hsaved Hcalls]. fold c in Hsaved, Hcalls.
  split_and!.
  - rewrite Hsaved. apply saveAll_latest.
  - rewrite Hsaved. apply saveAll_NoDup, NoDup_nil_2.
  - apply (Forall_impl _ _ _ Hcalls).
    intros l (ks & Hprefix & ->). split_and!.
    + exists ks. split; [done | apply saveAll_latest].
    + apply saveAll_NoDup, NoDup_nil_2.
    + intros t a. unfold App.handleQuizComplete. by rewrite saveEffect_answers.
Qed.

(** A session with three commits, two of them on the first question:
    the answer 4 to the first question is replaced by the answer 2 with a
    star and a comment; a comment of white space only is stored as no
    comment. *)
Example second_commit_replaces_first :
  let evs :=
    [Quiz.Select 4; Quiz.Elapse 5500; Quiz.Back;
     Quiz.Select 2; Quiz.Pause; Quiz.ToggleImportant; Quiz.TypeComment "nja"; Quiz.Next;
     Quiz.Select 5; Quiz.Pause; Quiz.TypeComment "  "; Quiz.Next] in
  let c := Quiz.run evs (Quiz.mount Scenario.foreground (Some App.TARGET_QUESTIONS)) in
  Quiz.commits evs (Quiz.mount Scenario.foreground (Some App.TARGET_QUESTIONS)) =
    [Quiz.mkCommit (Scenario.question 1) 4 false "";
     Quiz.mkCommit (Scenario.question 1) 2 true "nja";
     Quiz.mkCommit (Scenario.question 2) 5 false "  "] ∧
  Quiz.answers (Quiz.view c) =
    [Types.mkAnswer 1 2 true (Some "nja"); Types.mkAnswer 2 5 false None].
Proof. split; vm_compute; reflexivity. Qed.

